(** * Task Tracker: the task collection manager of [src/app/page.tsx]

    A shallow embedding of the page component's task logic: the
    [MOCK_API] store over [localStorage], the React state of
    [TaskTracker], its handlers ([handleSaveTask], [toggleStatus],
    [deleteTask]), the save effect and the derived [filteredTasks],
    followed by the properties of the collection manager.

    Conventions.
    - A JavaScript string is a [string]: each [ascii] is one code unit
      in the range U+0000..U+00FF.
    - A JavaScript number that holds a timestamp is a [Z]; a number
      that may be [NaN] is an [option Z] with [None] for [NaN].
    - A call that can throw returns a [Completion]. *)

From Stdlib Require Import ZArith String Ascii List Sorting.Sorted.
From Stdlib Require Import DecimalString DecimalN.
From stdpp Require Import gmap strings list.

Set Warnings "-register-all".

Open Scope string_scope.
Open Scope Z_scope.

(** ** Completions *)

(** The outcome of a JavaScript call: a value, or an exception
    identified by the name of its constructor. [Outside] stands for a
    call on an input outside the fragment that is modelled: what the
    code does there is left open. *)
Inductive Completion (A : Type) : Type :=
  | Normal (value : A)
  | Throw (name : string)
  | Outside.

Arguments Normal {A} value.
Arguments Throw {A} name.
Arguments Outside {A}.

(** ** JSON values and [JSON.stringify] *)

Module JSON.

Inductive json : Type :=
  | JNull
  | JBool (b : bool)
  | JNum (n : Z)
  | JStr (s : string)
  | JArr (items : list json)
  | JObj (members : list (string * json)).

(** The quotation mark U+0022. *)
Definition dquote : ascii := "034"%char.

Definition hexDigit (n : N) : ascii :=
  ascii_of_N (if (n <? 10)%N then 48 + n else 87 + n)%N.

(** One code unit inside [QuoteJSONString]: the two-character escapes,
    [\u00xx] for the other control characters, the code unit itself
    otherwise. *)
Definition escape (c : ascii) : string :=
  let n := N_of_ascii c in
  if (n =? 34)%N then String "\" (String dquote "")
  else if (n =? 92)%N then "\\"
  else if (n =? 8)%N then "\b"
  else if (n =? 9)%N then "\t"
  else if (n =? 10)%N then "\n"
  else if (n =? 12)%N then "\f"
  else if (n =? 13)%N then "\r"
  else if (n <? 32)%N then
    String "\" (String "u" (String "0" (String "0"
      (String (hexDigit (n / 16)) (String (hexDigit (n mod 16)) "")))))
  else String c "".

Fixpoint quoteBody (s : string) : string :=
  match s with
  | "" => ""
  | String c s' => escape c ++ quoteBody s'
  end.

Definition QuoteJSONString (s : string) : string :=
  String dquote (quoteBody s ++ String dquote "").

(** [Number::toString] on an integer: its decimal digits, with a
    leading minus sign when negative (the form JavaScript prints for
    every integer of magnitude below 10^21). *)
Definition numberToString (n : Z) : string :=
  match n with
  | Zneg p => String "-" (NilEmpty.string_of_uint (N.to_uint (Npos p)))
  | _ => NilEmpty.string_of_uint (N.to_uint (Z.to_N n))
  end.

(** The elements of an array or the members of an object, separated by
    commas and followed by the closing bracket. *)
Definition commaSep {A : Type} (f : A -> string) (close : string)
  : list A -> string :=
  fix go (l : list A) : string :=
    match l with
    | [] => close
    | x :: l' =>
        f x ++ match l' with
               | [] => close
               | _ :: _ => String "," (go l')
               end
    end.

Fixpoint stringify (j : json) : string :=
  match j with
  | JNull => "null"
  | JBool true => "true"
  | JBool false => "false"
  | JNum n => numberToString n
  | JStr s => QuoteJSONString s
  | JArr items => String "[" (commaSep stringify "]" items)
  | JObj members =>
      String "{"
        (commaSep (fun m => QuoteJSONString (fst m) ++ String ":" (stringify (snd m)))
           "}" members)
  end.

(** ** [JSON.parse]

    A recursive-descent reader of JSON text.  An object is built as
    [JSON.parse] builds it: a member whose name came before replaces
    the value of that name, in the place of the first. These inputs
    are outside the fragment and reported as [Unmodelled]: a number
    with a fraction or an exponent, the number [-0], a [\u] escape
    above U+00FF, and an object with a member name that starts with a
    digit (an array index among the names would change the order of
    the properties). An integer is read exactly; the double of the
    code is that integer up to 2^53 in magnitude. *)

Inductive perror : Type := SyntaxErr | Unmodelled | Exhausted.

Inductive presult (A : Type) : Type :=
  | POk (a : A) (rest : string)
  | PErr (e : perror).

Arguments POk {A} a rest.
Arguments PErr {A} e.

Definition pmap {A B : Type} (f : A -> B) (r : presult A) : presult B :=
  match r with
  | POk a rest => POk (f a) rest
  | PErr e => PErr e
  end.

Definition isWs (c : ascii) : bool :=
  let n := N_of_ascii c in
  ((n =? 32) || (n =? 9) || (n =? 10) || (n =? 13))%N.

Fixpoint skipWs (s : string) : string :=
  match s with
  | String c s' => if isWs c then skipWs s' else s
  | "" => ""
  end.

Fixpoint stripPrefix (lit s : string) : option string :=
  match lit with
  | "" => Some s
  | String a lit' =>
      match s with
      | String b s' => if Ascii.eqb a b then stripPrefix lit' s' else None
      | "" => None
      end
  end.

Definition hexValue (c : ascii) : option N :=
  let n := N_of_ascii c in
  if ((48 <=? n) && (n <=? 57))%N then Some (n - 48)%N
  else if ((97 <=? n) && (n <=? 102))%N then Some (n - 87)%N
  else if ((65 <=? n) && (n <=? 70))%N then Some (n - 55)%N
  else None.

(** The character denoted by a two-character escape. *)
Definition simpleEscape (c : ascii) : option ascii :=
  let n := N_of_ascii c in
  if (n =? 34)%N then Some dquote
  else if (n =? 92)%N then Some "\"%char
  else if (n =? 47)%N then Some "/"%char
  else if (n =? 98)%N then Some (ascii_of_N 8)
  else if (n =? 102)%N then Some (ascii_of_N 12)
  else if (n =? 110)%N then Some (ascii_of_N 10)
  else if (n =? 114)%N then Some (ascii_of_N 13)
  else if (n =? 116)%N then Some (ascii_of_N 9)
  else None.

(** Where the string reader stands: in plain text, just after a
    backslash, or inside the four hexadecimal digits of a [\u]. *)
Inductive strState : Type :=
  | Plain
  | Escaped
  | Hex (remaining : nat) (acc : N).

(** Reads a string literal from just after its opening quotation mark. *)
Fixpoint parseStringBody (st : strState) (s : string) : presult string :=
  match s with
  | "" => PErr SyntaxErr
  | String c s' =>
      match st with
      | Plain =>
          let n := N_of_ascii c in
          if (n =? 34)%N then POk "" s'
          else if (n =? 92)%N then parseStringBody Escaped s'
          else if (n <? 32)%N then PErr SyntaxErr
          else pmap (String c) (parseStringBody Plain s')
      | Escaped =>
          match simpleEscape c with
          | Some ch => pmap (String ch) (parseStringBody Plain s')
          | None =>
              if Ascii.eqb c "u" then parseStringBody (Hex 3 0%N) s'
              else PErr SyntaxErr
          end
      | Hex k acc =>
          match hexValue c with
          | None => PErr SyntaxErr
          | Some h =>
              let acc' := (16 * acc + h)%N in
              match k with
              | O =>
                  if (acc' <? 256)%N
                  then pmap (String (ascii_of_N acc')) (parseStringBody Plain s')
                  else PErr Unmodelled
              | S k' => parseStringBody (Hex k' acc') s'
              end
          end
      end
  end.

Definition digitOf (c : ascii) : option (Decimal.uint -> Decimal.uint) :=
  let n := N_of_ascii c in
  if (n =? 48)%N then Some Decimal.D0
  else if (n =? 49)%N then Some Decimal.D1
  else if (n =? 50)%N then Some Decimal.D2
  else if (n =? 51)%N then Some Decimal.D3
  else if (n =? 52)%N then Some Decimal.D4
  else if (n =? 53)%N then Some Decimal.D5
  else if (n =? 54)%N then Some Decimal.D6
  else if (n =? 55)%N then Some Decimal.D7
  else if (n =? 56)%N then Some Decimal.D8
  else if (n =? 57)%N then Some Decimal.D9
  else None.

(** The longest run of decimal digits at the head of the text. *)
Fixpoint lexDigits (s : string) : Decimal.uint * string :=
  match s with
  | String c s' =>
      match digitOf c with
      | Some d => let (u, r) := lexDigits s' in (d u, r)
      | None => (Decimal.Nil, s)
      end
  | "" => (Decimal.Nil, "")
  end.

(** Does the text continue a number past its integer part? *)
Definition continuesNumber (s : string) : bool :=
  match s with
  | String c _ => Ascii.eqb c "." || Ascii.eqb c "e" || Ascii.eqb c "E"
  | "" => false
  end.

(** The integer part of a number: at least one digit, no leading
    zero unless the number is the single digit 0. *)
Definition parseInt (s : string) : presult N :=
  let (u, r) := lexDigits s in
  match u with
  | Decimal.Nil => PErr SyntaxErr
  | _ =>
      if Decimal.uint_beq (Decimal.unorm u) u then
        if continuesNumber r then PErr Unmodelled else POk (N.of_uint u) r
      else PErr SyntaxErr
  end.

Definition parseNumber (s : string) : presult Z :=
  match s with
  | String c s' =>
      if Ascii.eqb c "-" then
        match parseInt s' with
        | POk n r => if (n =? 0)%N then PErr Unmodelled else POk (- Z.of_N n) r
        | PErr e => PErr e
        end
      else pmap Z.of_N (parseInt s)
  | "" => PErr SyntaxErr
  end.

(** Does the member name start with a digit? *)
Definition digitLed (k : string) : bool :=
  match k with
  | String c _ => match digitOf c with Some _ => true | None => false end
  | "" => false
  end.

(** [CreateDataProperty] on the object under construction: a name
    already there keeps its place and takes the new value. *)
Fixpoint setMember (k : string) (v : json) (members : list (string * json))
  : list (string * json) :=
  match members with
  | [] => [(k, v)]
  | (k', v') :: rest =>
      if String.eqb k k' then (k', v) :: rest
      else (k', v') :: setMember k v rest
  end.

Definition foldMembers (read : list (string * json)) : list (string * json) :=
  fold_left (fun acc m => setMember (fst m) (snd m) acc) read [].

Definition literal (lit : string) (j : json) (s : string) : presult json :=
  match stripPrefix lit s with
  | Some rest => POk j rest
  | None => PErr SyntaxErr
  end.

Fixpoint parseValue (fuel : nat) (s : string) : presult json :=
  match fuel with
  | O => PErr Exhausted
  | S f =>
      match skipWs s with
      | "" => PErr SyntaxErr
      | String c r =>
          if Ascii.eqb c "[" then
            match skipWs r with
            | "" => PErr SyntaxErr
            | String c' r' =>
                if Ascii.eqb c' "]" then POk (JArr []) r'
                else pmap JArr (parseElements f r)
            end
          else if Ascii.eqb c "{" then
            match skipWs r with
            | "" => PErr SyntaxErr
            | String c' r' =>
                if Ascii.eqb c' "}" then POk (JObj []) r'
                else pmap (fun read => JObj (foldMembers read)) (parseMembers f r)
            end
          else if Ascii.eqb c dquote then pmap JStr (parseStringBody Plain r)
          else if Ascii.eqb c "t" then literal "rue" (JBool true) r
          else if Ascii.eqb c "f" then literal "alse" (JBool false) r
          else if Ascii.eqb c "n" then literal "ull" JNull r
          else pmap JNum (parseNumber (String c r))
      end
  end
with parseElements (fuel : nat) (s : string) : presult (list json) :=
  match fuel with
  | O => PErr Exhausted
  | S f =>
      match parseValue f s with
      | PErr e => PErr e
      | POk v r =>
          match skipWs r with
          | "" => PErr SyntaxErr
          | String c r' =>
              if Ascii.eqb c "," then pmap (cons v) (parseElements f r')
              else if Ascii.eqb c "]" then POk [v] r'
              else PErr SyntaxErr
          end
      end
  end
with parseMembers (fuel : nat) (s : string) : presult (list (string * json)) :=
  match fuel with
  | O => PErr Exhausted
  | S f =>
      match skipWs s with
      | "" => PErr SyntaxErr
      | String c r =>
          if Ascii.eqb c dquote then
            match parseStringBody Plain r with
            | PErr e => PErr e
            | POk k r1 =>
                match skipWs r1 with
                | "" => PErr SyntaxErr
                | String c1 r2 =>
                    if digitLed k then PErr Unmodelled
                    else if Ascii.eqb c1 ":" then
                      match parseValue f r2 with
                      | PErr e => PErr e
                      | POk v r3 =>
                          match skipWs r3 with
                          | "" => PErr SyntaxErr
                          | String c3 r4 =>
                              if Ascii.eqb c3 ","
                              then pmap (cons (k, v)) (parseMembers f r4)
                              else if Ascii.eqb c3 "}" then POk [(k, v)] r4
                              else PErr SyntaxErr
                          end
                      end
                    else PErr SyntaxErr
                end
            end
          else PErr SyntaxErr
      end
  end.

(** [JSON.parse]: one value, then nothing but white space.  Every call
    of the reader consumes a character within two steps, so twice the
    length of the text is fuel enough. *)
Definition parse (s : string) : presult json :=
  match parseValue (2 * String.length s + 2) s with
  | POk j rest =>
      match skipWs rest with
      | "" => POk j ""
      | String _ _ => PErr SyntaxErr
      end
  | PErr e => PErr e
  end.

End JSON.

Import JSON.

(** ** Tasks ([types/task]) *)

Inductive TaskStatus : Type := pending | done.

Record Task : Type := {
  id : string;
  title : string;
  dueDate : string;
  status : TaskStatus;
  createdAt : Z
}.

Inductive TaskFilter : Type := filter_all | filter_pending | filter_done.

Inductive TaskSort : Type := sort_date | sort_name.

(** The string literals behind the three union types. *)
Definition statusLiteral (s : TaskStatus) : string :=
  match s with
  | pending => "pending"
  | done => "done"
  end.

Definition filterLiteral (f : TaskFilter) : string :=
  match f with
  | filter_all => "all"
  | filter_pending => "pending"
  | filter_done => "done"
  end.

Definition statusOfLiteral (s : string) : option TaskStatus :=
  if String.eqb s "pending" then Some pending
  else if String.eqb s "done" then Some done
  else None.

(** ** The store: [MOCK_API] over [localStorage] *)

(** A task as the plain object [JSON.stringify] sees: its own
    properties in creation order. *)
Definition taskToJson (t : Task) : json :=
  JObj [ ("id", JStr (id t));
         ("title", JStr (title t));
         ("dueDate", JStr (dueDate t));
         ("status", JStr (statusLiteral (status t)));
         ("createdAt", JNum (createdAt t)) ].

Definition tasksToJson (ts : list Task) : json :=
  JArr (map taskToJson ts).

(** Property lookup on a parsed object: the last member of a name wins. *)
Fixpoint getProp (k : string) (members : list (string * json)) : option json :=
  match members with
  | [] => None
  | (k', v) :: rest =>
      match getProp k rest with
      | Some v' => Some v'
      | None => if String.eqb k k' then Some v else None
      end
  end.

(** The unchecked cast [as Task]: the values that are tasks. *)
Definition asTask (j : json) : option Task :=
  match j with
  | JObj members =>
      if Nat.eqb (length members) 5 then
        match getProp "id" members, getProp "title" members,
              getProp "dueDate" members, getProp "status" members,
              getProp "createdAt" members with
        | Some (JStr i), Some (JStr t), Some (JStr d), Some (JStr s), Some (JNum c) =>
            match statusOfLiteral s with
            | Some st =>
                Some {| id := i; title := t; dueDate := d; status := st; createdAt := c |}
            | None => None
            end
        | _, _, _, _, _ => None
        end
      else None
  | _ => None
  end.

Fixpoint asTaskList (items : list json) : option (list Task) :=
  match items with
  | [] => Some []
  | j :: rest =>
      match asTask j, asTaskList rest with
      | Some t, Some ts => Some (t :: ts)
      | _, _ => None
      end
  end.

Definition asTasks (j : json) : option (list Task) :=
  match j with
  | JArr items => asTaskList items
  | _ => None
  end.

(** The numbers of the value are integers that a double holds exactly. *)
Fixpoint safeNumbers (j : json) : bool :=
  match j with
  | JNum n => Z.abs n <=? 2 ^ 53
  | JArr items => forallb safeNumbers items
  | JObj members => forallb (fun m => safeNumbers (snd m)) members
  | _ => true
  end.

(** What [getTasks] hands back: a task array, or a parsed value that
    the return type [Task[]] does not rule out at run time and that is
    no list of [Task] records: a value of another shape, or an array
    whose objects have other properties than the five of a task. *)
Inductive Loaded : Type :=
  | Tasks (ts : list Task)
  | Other (j : json).

Definition storageKey : string := "task_tracker_data".

(** [MOCK_API.getTasks]; [window] tells whether the code runs in a
    browser. [getItem] gives [null] for a missing key, and the empty
    string is falsy as well. A syntax error of [JSON.parse] is thrown
    on; a text outside the fragment of the reader is [Outside], and so
    is a value of another shape with an integer that a double rounds. *)
Definition getTasks (window : bool) (localStorage : gmap string string)
  : Completion Loaded :=
  if negb window then Normal (Tasks [])
  else
    match localStorage !! storageKey with
    | None => Normal (Tasks [])
    | Some stored =>
        if String.eqb stored "" then Normal (Tasks [])
        else
          match parse stored with
          | PErr SyntaxErr => Throw "SyntaxError"
          | PErr _ => Outside
          | POk j _ =>
              match asTasks j with
              | Some ts => Normal (Tasks ts)
              | None => if safeNumbers j then Normal (Other j) else Outside
              end
          end
    end.

(** [MOCK_API.saveTasks] *)
Definition saveTasks (tasks : list Task) (localStorage : gmap string string)
  : gmap string string :=
  <[ storageKey := stringify (tasksToJson tasks) ]> localStorage.

(** ** Built-ins supplied by the JavaScript engine

    [toLowerCase] and [localeCompare] depend on Unicode tables and on
    the locale, and the date parser on the engine; they are taken as
    given. [Date_getTime s] is [new Date(s).getTime()], with [None]
    for [NaN]. *)
Class Runtime : Type := {
  toLowerCase : string -> string;
  localeCompare : string -> string -> Z;
  Date_getTime : string -> option Z
}.

(** ECMAScript asks of [localeCompare] that it be a consistent
    comparator: a total preorder on strings. *)
Class ConsistentCollation (R : Runtime) : Prop := {
  localeCompare_refl : forall a, localeCompare a a = 0;
  localeCompare_antisym : forall a b, localeCompare a b < 0 <-> 0 < localeCompare b a;
  localeCompare_trans : forall a b c,
    localeCompare a b <= 0 -> localeCompare b c <= 0 -> localeCompare a c <= 0
}.

(** ** [Array.prototype] *)

(** [String.prototype.includes] *)
Fixpoint includes (s sub : string) : bool :=
  String.prefix sub s ||
  match s with
  | "" => false
  | String _ s' => includes s' sub
  end.

(** [SortCompare]: a [NaN] from the comparator counts as [+0]. *)
Definition SortCompare {A : Type} (comparefn : A -> A -> option Z) (x y : A) : Z :=
  match comparefn x y with
  | Some v => v
  | None => 0
  end.

(** [Array.prototype.sort] as a stable insertion sort: an element moves
    past another only when the comparator puts it strictly after. For a
    consistent comparator this is the order ECMAScript prescribes; for
    any other comparator ECMAScript leaves the order to the engine, and
    this is one order an engine may give. *)
Fixpoint sortInsert {A : Type} (comparefn : A -> A -> option Z) (x : A) (l : list A)
  : list A :=
  match l with
  | [] => [x]
  | y :: l' =>
      if 0 <? SortCompare comparefn x y
      then y :: sortInsert comparefn x l'
      else x :: l
  end.

Fixpoint Array_sort {A : Type} (comparefn : A -> A -> option Z) (l : list A)
  : list A :=
  match l with
  | [] => []
  | x :: l' => sortInsert comparefn x (Array_sort comparefn l')
  end.

(** ** The component state *)

Record State : Type := {
  tasks : list Task;
  search : string;
  filter : TaskFilter;
  sortBy : TaskSort;
  isModalOpen : bool;
  editingTask : option Task
}.

Definition initialState : State :=
  {| tasks := []; search := ""; filter := filter_all; sortBy := sort_date;
     isModalOpen := false; editingTask := None |}.

Definition setTasks (v : list Task) (st : State) : State :=
  {| tasks := v; search := search st; filter := filter st; sortBy := sortBy st;
     isModalOpen := isModalOpen st; editingTask := editingTask st |}.

Definition setSearch (v : string) (st : State) : State :=
  {| tasks := tasks st; search := v; filter := filter st; sortBy := sortBy st;
     isModalOpen := isModalOpen st; editingTask := editingTask st |}.

Definition setFilter (v : TaskFilter) (st : State) : State :=
  {| tasks := tasks st; search := search st; filter := v; sortBy := sortBy st;
     isModalOpen := isModalOpen st; editingTask := editingTask st |}.

Definition setSortBy (v : TaskSort) (st : State) : State :=
  {| tasks := tasks st; search := search st; filter := filter st; sortBy := v;
     isModalOpen := isModalOpen st; editingTask := editingTask st |}.

Definition setIsModalOpen (v : bool) (st : State) : State :=
  {| tasks := tasks st; search := search st; filter := filter st; sortBy := sortBy st;
     isModalOpen := v; editingTask := editingTask st |}.

Definition setEditingTask (v : option Task) (st : State) : State :=
  {| tasks := tasks st; search := search st; filter := filter st; sortBy := sortBy st;
     isModalOpen := isModalOpen st; editingTask := v |}.

(** ** The derived list [filteredTasks] *)

Section View.
Context {R : Runtime}.

Definition matchesSearch (debouncedSearch : string) (task : Task) : bool :=
  includes (toLowerCase (title task)) (toLowerCase debouncedSearch).

Definition matchesFilter (f : TaskFilter) (task : Task) : bool :=
  String.eqb (filterLiteral f) "all"
  || String.eqb (statusLiteral (status task)) (filterLiteral f).

(** Subtraction of two numbers either of which may be [NaN]. The
    difference of two time values can round in double precision, but
    never to another sign, and the sort reads the sign only. *)
Definition numSub (a b : option Z) : option Z :=
  match a, b with
  | Some x, Some y => Some (x - y)
  | _, _ => None
  end.

Definition compareTasks (by_ : TaskSort) (a b : Task) : option Z :=
  match by_ with
  | sort_date => numSub (Date_getTime (dueDate a)) (Date_getTime (dueDate b))
  | sort_name => Some (localeCompare (title a) (title b))
  end.

Definition filteredTasks (ts : list Task) (debouncedSearch : string)
    (f : TaskFilter) (by_ : TaskSort) : list Task :=
  Array_sort (compareTasks by_)
    (List.filter (fun task => matchesSearch debouncedSearch task && matchesFilter f task) ts).

(** The task's due date is one the engine can parse. *)
Definition validDate (t : Task) : Prop := is_Some (Date_getTime (dueDate t)).

(** Tasks whose due dates denote one time value (or are all unparsable). *)
Definition sameTime (k : option Z) (t : Task) : bool :=
  bool_decide (Date_getTime (dueDate t) = k).

(** Tasks whose titles collate equal to a given string. *)
Definition sameName (s : string) (t : Task) : bool :=
  localeCompare s (title t) =? 0.

(** The tasks that pass both filters, in collection order. *)
Definition keptTasks (ts : list Task) (debouncedSearch : string) (f : TaskFilter)
  : list Task :=
  List.filter (fun task => matchesSearch debouncedSearch task && matchesFilter f task) ts.

End View.

(** ** The handlers *)

Definition closeModal (st : State) : State :=
  setEditingTask None (setIsModalOpen false st).

Definition openModal (task : option Task) (st : State) : State :=
  setIsModalOpen true
    (match task with
     | Some t => setEditingTask (Some t) st
     | None => st
     end).

(** [handleSaveTask]; [randomUUID] and [now] are the values that
    [crypto.randomUUID()] and [Date.now()] return during the call,
    [title_] and [dueDate_] the two form fields. *)
Definition handleSaveTask (randomUUID : string) (now : Z)
    (title_ dueDate_ : string) (st : State) : State :=
  closeModal
    (match editingTask st with
     | Some e =>
         setTasks
           (map (fun t =>
                   if String.eqb (id t) (id e)
                   then {| id := id t; title := title_; dueDate := dueDate_;
                           status := status t; createdAt := createdAt t |}
                   else t)
                (tasks st))
           st
     | None =>
         let newTask :=
           {| id := randomUUID; title := title_; dueDate := dueDate_;
              status := pending; createdAt := now |} in
         setTasks (newTask :: tasks st) st
     end).

Definition toggleStatus (id_ : string) (st : State) : State :=
  setTasks
    (map (fun t =>
            if String.eqb (id t) id_
            then {| id := id t; title := title t; dueDate := dueDate t;
                    status := if String.eqb (statusLiteral (status t)) "pending"
                              then done else pending;
                    createdAt := createdAt t |}
            else t)
         (tasks st))
    st.

Definition deleteTask (id_ : string) (st : State) : State :=
  setTasks (List.filter (fun t => negb (String.eqb (id t) id_)) (tasks st)) st.

(** ** The page: state, storage and the save effect *)

Record Page : Type := {
  state : State;
  localStorage : gmap string string
}.

(** The effect on [[tasks]]: it writes only a non-empty collection. *)
Definition saveEffect (st : State) (ls : gmap string string) : gmap string string :=
  if (0 <? length (tasks st))%nat then saveTasks (tasks st) ls else ls.

(** The user actions that change the collection: submitting the form
    (create, or update when a task is under edit), toggling and
    deleting. Each handler calls [setTasks] with a new array, so the
    effect on [[tasks]] runs after each of them. *)
Inductive Mutation : Type :=
  | SubmitForm (randomUUID : string) (now : Z) (title_ dueDate_ : string)
  | ToggleStatus (id_ : string)
  | DeleteTask (id_ : string).

Definition mutate (m : Mutation) (st : State) : State :=
  match m with
  | SubmitForm u n t d => handleSaveTask u n t d st
  | ToggleStatus i => toggleStatus i st
  | DeleteTask i => deleteTask i st
  end.

(** One mutation as the browser runs it: the handler returns normally
    (no handler has a [throw]), React renders the new state, then the
    effect runs. *)
Definition dispatch (m : Mutation) (p : Page) : Completion Page :=
  let st' := mutate m (state p) in
  Normal {| state := st'; localStorage := saveEffect st' (localStorage p) |}.

(** ** A concrete runtime

    An engine for strings of the range U+0000..U+00FF whose collation
    orders strings by code unit and whose date parser reads the
    date-only form [YYYY-MM-DD]. It serves to run the page on examples. *)

Module Latin1.

Definition lowerChar (c : ascii) : ascii :=
  let n := N_of_ascii c in
  if ((65 <=? n) && (n <=? 90))%N then ascii_of_N (n + 32)
  else if ((192 <=? n) && (n <=? 222) && negb (n =? 215))%N then ascii_of_N (n + 32)
  else c.

Fixpoint lower (s : string) : string :=
  match s with
  | "" => ""
  | String c s' => String (lowerChar c) (lower s')
  end.

Fixpoint codeUnitCompare (a b : string) : Z :=
  match a, b with
  | "", "" => 0
  | "", String _ _ => -1
  | String _ _, "" => 1
  | String x a', String y b' =>
      match (N_of_ascii x ?= N_of_ascii y)%N with
      | Lt => -1
      | Gt => 1
      | Eq => codeUnitCompare a' b'
      end
  end.

Definition digitValue (c : ascii) : option Z :=
  let n := N_of_ascii c in
  if ((48 <=? n) && (n <=? 57))%N then Some (Z.of_N n - 48) else None.

Fixpoint digitsValue (cs : list ascii) (acc : Z) : option Z :=
  match cs with
  | [] => Some acc
  | c :: cs' =>
      match digitValue c with
      | Some d => digitsValue cs' (10 * acc + d)
      | None => None
      end
  end.

Definition isLeapYear (y : Z) : bool :=
  ((y mod 4 =? 0) && negb (y mod 100 =? 0)) || (y mod 400 =? 0).

Definition daysInMonth (y m : Z) : Z :=
  if m =? 2 then (if isLeapYear y then 29 else 28)
  else if (m =? 4) || (m =? 6) || (m =? 9) || (m =? 11) then 30
  else 31.

(** Days from 1970-01-01 to the given civil date. *)
Definition daysFromCivil (y m d : Z) : Z :=
  let y' := if m <=? 2 then y - 1 else y in
  let era := y' / 400 in
  let yoe := y' - era * 400 in
  let doy := (153 * (if 2 <? m then m - 3 else m + 9) + 2) / 5 + d - 1 in
  let doe := yoe * 365 + yoe / 4 - yoe / 100 + doy in
  era * 146097 + doe - 719468.

Definition msPerDay : Z := 86400000.

Definition dateOnlyTime (s : string) : option Z :=
  match list_ascii_of_string s with
  | [y1; y2; y3; y4; s1; m1; m2; s2; d1; d2] =>
      if Ascii.eqb s1 "-" && Ascii.eqb s2 "-" then
        match digitsValue [y1; y2; y3; y4] 0, digitsValue [m1; m2] 0,
              digitsValue [d1; d2] 0 with
        | Some y, Some m, Some d =>
            if (1 <=? m) && (m <=? 12) && (1 <=? d) && (d <=? daysInMonth y m)
            then Some (daysFromCivil y m d * msPerDay)
            else None
        | _, _, _ => None
        end
      else None
  | _ => None
  end.

Definition runtime : Runtime :=
  {| toLowerCase := lower;
     localeCompare := codeUnitCompare;
     Date_getTime := dateOnlyTime |}.

End Latin1.

(** The collection of the worked scenario. *)
Definition writeReport : Task :=
  {| id := "t1"; title := "Write report"; dueDate := "2025-01-10";
     status := pending; createdAt := 1735689600000 |}.

Definition buyMilk : Task :=
  {| id := "t2"; title := "Buy milk"; dueDate := "2025-01-05";
     status := done; createdAt := 1735689600001 |}.

Definition alphaTask : Task :=
  {| id := "t3"; title := "Alpha task"; dueDate := "2025-01-20";
     status := pending; createdAt := 1735689600002 |}.

(** ** Measures used by the proofs *)

Module JSONFacts.

(** Fuel that suffices to read a value back. *)
Fixpoint need (j : json) : nat :=
  match j with
  | JArr items => S (list_sum (map (fun v => S (need v)) items))
  | JObj members => S (list_sum (map (fun m => S (need (snd m))) members))
  | _ => 1%nat
  end.

(** The text after a number must not continue it. *)
Definition numberEnds (rest : string) : bool :=
  match rest with
  | "" => true
  | String c _ =>
      match digitOf c with
      | Some _ => false
      | None => negb (continuesNumber rest)
      end
  end.

(** The first character of a printed value: neither white space nor a
    closing bracket. *)
Definition startsValue (s : string) : bool :=
  match s with
  | "" => false
  | String c _ =>
      negb (isWs c) && negb (Ascii.eqb c "]") && negb (Ascii.eqb c "}")
  end.

(** The first character of a printed number. *)
Definition isNumberStart (c : ascii) : bool :=
  Ascii.eqb c "-" || match digitOf c with Some _ => true | None => false end.

(** The member names are pairwise different. *)
Fixpoint keysDistinct (ks : list string) : bool :=
  match ks with
  | [] => true
  | k :: rest => negb (existsb (String.eqb k) rest) && keysDistinct rest
  end.

(** The objects of the value are as [JSON.parse] leaves them within
    the fragment: no name twice, no name that starts with a digit. *)
Fixpoint plainObjects (j : json) : bool :=
  match j with
  | JArr items => forallb plainObjects items
  | JObj members =>
      keysDistinct (map fst members)
      && forallb (fun m => negb (digitLed (fst m))) members
      && forallb (fun m => plainObjects (snd m)) members
  | _ => true
  end.

(** What one value reads back as, whatever follows it. *)
Definition readsBack (v : json) : Prop :=
  plainObjects v = true ->
  forall fuel rest, (need v <= fuel)%nat -> numberEnds rest = true ->
    parseValue fuel (stringify v ++ rest) = POk v rest.

(** One member of an object as [stringify] prints it. *)
Definition printMember (m : string * json) : string :=
  QuoteJSONString (fst m) ++ String ":" (stringify (snd m)).

End JSONFacts.

(** ** Notions of the specification *)

(** White space as [String.prototype.trim] strips it. *)
Definition isWhiteSpace (c : ascii) : bool :=
  let n := N_of_ascii c in
  ((n =? 9) || (n =? 10) || (n =? 11) || (n =? 12) || (n =? 13)
   || (n =? 32) || (n =? 160))%N.

(** The title is empty after trimming: it holds white space only. *)
Fixpoint emptyAfterTrim (s : string) : bool :=
  match s with
  | "" => true
  | String c s' => isWhiteSpace c && emptyAfterTrim s'
  end.

(** The other of the two status values. *)
Definition flipped (s : TaskStatus) : TaskStatus :=
  match s with
  | pending => done
  | done => pending
  end.

(** ** Pages used in the examples *)

(** The page of a first visit: nothing stored, nothing loaded. *)
Definition emptyPage : Page :=
  {| state := initialState; localStorage := ∅ |}.

(** A page that holds the given tasks, in step with its storage. *)
Definition pageOf (ts : list Task) : Page :=
  {| state := setTasks ts initialState; localStorage := saveTasks ts ∅ |}.

(** The same page with the edit form open on a task. *)
Definition editing (e : Task) (p : Page) : Page :=
  {| state := openModal (Some e) (state p); localStorage := localStorage p |}.

(** A task whose due date is no date. *)
Definition somedayTask : Task :=
  {| id := "t4"; title := "Call Sam"; dueDate := "someday";
     status := pending; createdAt := 1735689600003 |}.

(** A task that is in no collection of the examples. *)
Definition ghostTask : Task :=
  {| id := "zz"; title := "Ghost"; dueDate := "2025-02-01";
     status := pending; createdAt := 1735689600009 |}.

(** ** Start-up and the other controls of the page *)

(** The effect that runs once at mount: [setTasks(MOCK_API.getTasks())].
    With a task array loaded, React renders it and the save effect runs
    on it. A loaded value that is no list of [Task] records is kept as
    it is: rendering it is not modelled. *)
Inductive Mounted : Type :=
  | Ready (p : Page)
  | Garbled (j : json).

Definition mount (ls : gmap string string) : Completion Mounted :=
  match getTasks true ls with
  | Throw name => Throw name
  | Outside => Outside
  | Normal (Other j) => Normal (Garbled j)
  | Normal (Tasks ts) =>
      Normal (Ready {| state := setTasks ts initialState;
                       localStorage := saveEffect (setTasks ts initialState) ls |})
  end.

Definition sortLiteral (s : TaskSort) : string :=
  match s with
  | sort_date => "date"
  | sort_name => "name"
  end.

(** Every control of the page with the handler it calls. *)
Inductive Event : Type :=
  | ClickAddTask
  | ChangeSearch (text : string)
  | ClickFilter (f : TaskFilter)
  | ClickSort
  | ClickToggle (id_ : string)
  | ClickEdit (task : Task)
  | ClickDelete (id_ : string)
  | ClickCancel
  | Submit (randomUUID : string) (now : Z) (title_ dueDate_ : string).

Definition handle (e : Event) (st : State) : State :=
  match e with
  | ClickAddTask => openModal None st
  | ChangeSearch text => setSearch text st
  | ClickFilter f => setFilter f st
  | ClickSort =>
      setSortBy (if String.eqb (sortLiteral (sortBy st)) "date"
                 then sort_name else sort_date) st
  | ClickToggle i => toggleStatus i st
  | ClickEdit task => openModal (Some task) st
  | ClickDelete i => deleteTask i st
  | ClickCancel => closeModal st
  | Submit u n t d => handleSaveTask u n t d st
  end.

(** The handlers that call [setTasks]; the save effect runs after them
    and after no other. *)
Definition callsSetTasks (e : Event) : bool :=
  match e with
  | ClickToggle _ | ClickDelete _ | Submit _ _ _ _ => true
  | _ => false
  end.

Definition fire (e : Event) (p : Page) : Page :=
  let st' := handle e (state p) in
  {| state := st';
     localStorage := if callsSetTasks e then saveEffect st' (localStorage p)
                     else localStorage p |}.

(** The control behind each mutation. *)
Definition eventOf (m : Mutation) : Event :=
  match m with
  | SubmitForm u n t d => Submit u n t d
  | ToggleStatus i => ClickToggle i
  | DeleteTask i => ClickDelete i
  end.

(** The pages a session can be in: the page after a successful load,
    and any page one more event later. No guard says when a control is
    on screen, so the pages of the real component are among these. *)
Inductive reachable (ls0 : gmap string string) : Page -> Prop :=
  | reach_mount (p : Page) : mount ls0 = Normal (Ready p) -> reachable ls0 p
  | reach_fire (e : Event) (p : Page) : reachable ls0 p -> reachable ls0 (fire e p).

(** White space only, in the sense of the JSON grammar. *)
Fixpoint allWs (s : string) : bool :=
  match s with
  | "" => true
  | String c s' => isWs c && allWs s'
  end.

(** A task with another title and due date, as the update branch
    builds it. *)
Definition retitled (title_ dueDate_ : string) (t : Task) : Task :=
  {| id := id t; title := title_; dueDate := dueDate_;
     status := status t; createdAt := createdAt t |}.

(** A task with the other status, as [toggleStatus] builds it. *)
Definition toggled (t : Task) : Task :=
  {| id := id t; title := title t; dueDate := dueDate t;
     status := flipped (status t); createdAt := createdAt t |}.

(** The [tasks.map] of the update branch and of [toggleStatus]: the
    tasks of one id rewritten, the others passed on. *)
Definition rewriteId (f : Task -> Task) (id_ : string) (ts : list Task) : list Task :=
  map (fun t => if String.eqb (id t) id_ then f t else t) ts.

(** * Properties *)

(** ** [JSON.parse] reads back what [JSON.stringify] prints *)

Module JSONProofs.
Import JSONFacts.

Lemma append_nil (b : string) : "" ++ b = b.
Proof. reflexivity. Qed.

Lemma append_cons (c : ascii) (a b : string) : String c a ++ b = String c (a ++ b).
Proof. reflexivity. Qed.

Ltac str := rewrite ?append_cons, ?append_nil.

Lemma append_assoc (a b c : string) : (a ++ b) ++ c = a ++ (b ++ c).
Proof. induction a as [|x a IH]; str; [reflexivity | now rewrite IH]. Qed.

Lemma length_append (a b : string) :
  String.length (a ++ b) = (String.length a + String.length b)%nat.
Proof. induction a as [|x a IH]; str; simpl; [reflexivity | now rewrite IH]. Qed.

Lemma escape_read (c : ascii) (r : string) :
  parseStringBody Plain (escape c ++ r) = pmap (String c) (parseStringBody Plain r).
Proof. destruct c as [[] [] [] [] [] [] [] []]; reflexivity. Qed.

Lemma quoteBody_read (s rest : string) :
  parseStringBody Plain (quoteBody s ++ String dquote rest) = POk s rest.
Proof.
  induction s as [|c s IH].
  - reflexivity.
  - cbn [quoteBody]. rewrite append_assoc, escape_read, IH. reflexivity.
Qed.

Lemma QuoteJSONString_read (s rest : string) :
  exists body, QuoteJSONString s ++ rest = String dquote body
               /\ parseStringBody Plain body = POk s rest.
Proof.
  exists (quoteBody s ++ String dquote rest). split.
  - unfold QuoteJSONString. str. rewrite append_assoc. now str.
  - apply quoteBody_read.
Qed.

Lemma lexDigits_read (u : Decimal.uint) (rest : string) :
  numberEnds rest = true ->
  lexDigits (NilEmpty.string_of_uint u ++ rest) = (u, rest).
Proof.
  intros Hr.
  induction u; cbn [NilEmpty.string_of_uint]; str;
    try (simpl; rewrite IHu; reflexivity).
  destruct rest as [|c rest]; [reflexivity|].
  cbn [numberEnds] in Hr. cbn [lexDigits].
  destruct (digitOf c); [discriminate | reflexivity].
Qed.

Lemma to_uint_normal (n : N) : Decimal.unorm (N.to_uint n) = N.to_uint n.
Proof. rewrite <- Unsigned.to_of, Unsigned.of_to. reflexivity. Qed.

Lemma to_uint_nonnil (n : N) : N.to_uint n <> Decimal.Nil.
Proof. rewrite <- to_uint_normal. apply DecimalFacts.unorm_nonnil. Qed.

Lemma uint_beq_refl (u : Decimal.uint) : Decimal.uint_beq u u = true.
Proof. induction u; simpl; auto. Qed.

Lemma numberEnds_continues (rest : string) :
  numberEnds rest = true -> continuesNumber rest = false.
Proof.
  destruct rest as [|c rest]; [reflexivity|]. unfold numberEnds.
  destruct (digitOf c); [discriminate|]. now destruct (continuesNumber _).
Qed.

Lemma parseInt_read (n : N) (rest : string) :
  numberEnds rest = true ->
  parseInt (NilEmpty.string_of_uint (N.to_uint n) ++ rest) = POk n rest.
Proof.
  intros Hr. unfold parseInt. rewrite lexDigits_read by assumption.
  pose proof (to_uint_nonnil n) as Hnil.
  rewrite to_uint_normal, uint_beq_refl, numberEnds_continues by assumption.
  rewrite Unsigned.of_to. destruct (N.to_uint n); [congruence | reflexivity ..].
Qed.

(** A printed natural number starts with a digit. *)
Lemma string_of_uint_head (u : Decimal.uint) :
  u <> Decimal.Nil ->
  exists c s, NilEmpty.string_of_uint u = String c s
              /\ Ascii.eqb c "-" = false /\ startsValue (String c s) = true
              /\ (forall r, skipWs (String c s ++ r) = String c s ++ r)
              /\ Ascii.eqb c "[" = false /\ Ascii.eqb c "{" = false
              /\ Ascii.eqb c dquote = false /\ Ascii.eqb c "t" = false
              /\ Ascii.eqb c "f" = false /\ Ascii.eqb c "n" = false.
Proof.
  intros Hu. destruct u; [congruence | ..]; simpl; eexists _, _;
    (split; [reflexivity|]); repeat split; reflexivity.
Qed.

Lemma parseNumber_read (z : Z) (rest : string) :
  numberEnds rest = true ->
  parseNumber (numberToString z ++ rest) = POk z rest.
Proof.
  intros Hr.
  assert (Hnonneg : forall n : N,
    parseNumber (NilEmpty.string_of_uint (N.to_uint n) ++ rest) = POk (Z.of_N n) rest).
  { intros n.
    destruct (string_of_uint_head (N.to_uint n) (to_uint_nonnil n))
      as (c & s & Hs & Hminus & _).
    pose proof (parseInt_read n rest Hr) as Hp.
    rewrite Hs in *. rewrite append_cons in *.
    unfold parseNumber. rewrite Hminus, Hp. reflexivity. }
  destruct z as [|p|p]; unfold numberToString.
  - apply (Hnonneg 0%N).
  - rewrite Hnonneg. now rewrite Z2N.id.
  - rewrite append_cons. unfold parseNumber.
    change (Ascii.eqb "-" "-") with true. cbv iota.
    rewrite parseInt_read by assumption. reflexivity.
Qed.

(** *** Objects without a repeated name are built as they are read *)

Lemma setMember_fresh (k : string) (v : json) (acc : list (string * json)) :
  existsb (String.eqb k) (map fst acc) = false ->
  setMember k v acc = (acc ++ [(k, v)])%list.
Proof.
  induction acc as [|[k' v'] acc IH]; [reflexivity|].
  cbn [map fst existsb setMember]. intros H.
  apply orb_false_iff in H as [Hk Hacc]. rewrite Hk. cbn [app]. now rewrite IH.
Qed.

Lemma existsb_app_false (k : string) (l1 l2 : list string) :
  existsb (String.eqb k) l1 = false -> existsb (String.eqb k) l2 = false ->
  existsb (String.eqb k) (l1 ++ l2)%list = false.
Proof. intros H1 H2. rewrite existsb_app. now rewrite H1, H2. Qed.

Lemma fold_setMember (read acc : list (string * json)) :
  keysDistinct (map fst read) = true ->
  Forall (fun m => existsb (String.eqb (fst m)) (map fst acc) = false) read ->
  fold_left (fun a m => setMember (fst m) (snd m) a) read acc = (acc ++ read)%list.
Proof.
  revert acc. induction read as [|[k v] read IH]; intros acc Hd Hacc.
  - cbn [fold_left]. now rewrite app_nil_r.
  - cbn [fold_left fst snd map keysDistinct] in *.
    apply andb_true_iff in Hd as [Hk Hd]. apply negb_true_iff in Hk.
    apply Forall_cons in Hacc as [Hkacc Hacc]. cbn [fst] in Hkacc.
    rewrite setMember_fresh by assumption. rewrite IH; [now rewrite <- app_assoc | assumption |].
    rewrite Forall_forall in Hacc |- *. intros m Hm.
    rewrite map_app. apply existsb_app_false; [now apply Hacc|].
    cbn [map fst existsb]. rewrite orb_false_r.
    apply String.eqb_neq. intros Heq.
    assert (Hin : existsb (String.eqb k) (map fst read) = true).
    { apply existsb_exists. exists (fst m). split.
      - apply in_map. now apply list_elem_of_In.
      - rewrite Heq. apply String.eqb_refl. }
    congruence.
Qed.

Lemma foldMembers_distinct (members : list (string * json)) :
  keysDistinct (map fst members) = true -> foldMembers members = members.
Proof.
  intros Hd. unfold foldMembers. rewrite fold_setMember; [reflexivity | assumption |].
  apply Forall_forall. reflexivity.
Qed.

(** Induction on a JSON value with the hypothesis available for every
    element and member. *)
Lemma json_nested_ind (P : json -> Prop)
  (Hnull : P JNull)
  (Hbool : forall b, P (JBool b))
  (Hnum : forall n, P (JNum n))
  (Hstr : forall s, P (JStr s))
  (Harr : forall items, Forall P items -> P (JArr items))
  (Hobj : forall members, Forall (fun m => P (snd m)) members -> P (JObj members)) :
  forall j, P j.
Proof.
  fix IH 1. intros [ | b | n | s | items | members].
  - exact Hnull.
  - apply Hbool.
  - apply Hnum.
  - apply Hstr.
  - apply Harr. induction items as [|v items IHitems]; constructor; [apply IH | exact IHitems].
  - apply Hobj. induction members as [|m members IHm]; constructor; [apply IH | exact IHm].
Qed.

Lemma parseValue_number (c : ascii) (s : string) (f : nat) :
  isNumberStart c = true ->
  parseValue (S f) (String c s) = pmap JNum (parseNumber (String c s)).
Proof.
  destruct c as [[] [] [] [] [] [] [] []]; intros H; try discriminate H; reflexivity.
Qed.

Lemma isNumberStart_startsValue (c : ascii) (s : string) :
  isNumberStart c = true -> startsValue (String c s) = true.
Proof.
  destruct c as [[] [] [] [] [] [] [] []]; intros H; try discriminate H; reflexivity.
Qed.

Lemma numberToString_head (z : Z) :
  exists c s, numberToString z = String c s /\ isNumberStart c = true.
Proof.
  assert (Hn : forall n : N, exists c s,
    NilEmpty.string_of_uint (N.to_uint n) = String c s /\ isNumberStart c = true).
  { intros n. pose proof (to_uint_nonnil n) as Hnil.
    destruct (N.to_uint n); [congruence | ..]; eexists _, _; split; reflexivity. }
  destruct z as [|p|p]; unfold numberToString; [apply Hn | apply Hn |].
  eexists _, _; split; reflexivity.
Qed.

Lemma startsValue_skipWs (s : string) : startsValue s = true -> skipWs s = s.
Proof.
  destruct s as [|c s]; [discriminate|]. cbn [startsValue skipWs].
  destruct (isWs c); [discriminate | reflexivity].
Qed.

Lemma startsValue_append (s rest : string) :
  startsValue s = true -> startsValue (s ++ rest) = true.
Proof. destruct s as [|c s]; [discriminate | now str]. Qed.

Lemma stringify_startsValue (j : json) : startsValue (stringify j) = true.
Proof.
  destruct j as [ | [|] | n | s | items | members]; try reflexivity.
  destruct (numberToString_head n) as (c & s & Hs & Hc).
  cbn [stringify]. rewrite Hs. now apply isNumberStart_startsValue.
Qed.

Lemma skipWs_nonws (c : ascii) (s : string) :
  isWs c = false -> skipWs (String c s) = String c s.
Proof. intros H. cbn [skipWs]. now rewrite H. Qed.

Lemma parseValue_array (f : nat) (r : string) :
  startsValue r = true ->
  parseValue (S f) (String "[" r) = pmap JArr (parseElements f r).
Proof.
  intros H. pose proof (startsValue_skipWs r H) as Hs.
  destruct r as [|c r]; [discriminate|].
  cbn [startsValue] in H.
  destruct (Ascii.eqb c "]") eqn:Hc; [now rewrite andb_false_r in H|].
  cbn [parseValue]. rewrite (skipWs_nonws "[") by reflexivity.
  change (Ascii.eqb "[" "[") with true. cbv iota. now rewrite Hs, Hc.
Qed.

Lemma parseValue_object (f : nat) (r : string) :
  startsValue r = true ->
  parseValue (S f) (String "{" r)
  = pmap (fun read => JObj (foldMembers read)) (parseMembers f r).
Proof.
  intros H. pose proof (startsValue_skipWs r H) as Hs.
  destruct r as [|c r]; [discriminate|].
  cbn [startsValue] in H.
  destruct (Ascii.eqb c "}") eqn:Hc; [now rewrite andb_false_r in H|].
  cbn [parseValue]. rewrite (skipWs_nonws "{") by reflexivity.
  change (Ascii.eqb "{" "[") with false. change (Ascii.eqb "{" "{") with true.
  cbv iota. now rewrite Hs, Hc.
Qed.

Lemma commaSep_cons {A : Type} (f : A -> string) (close : string) (x : A) (l : list A) :
  commaSep f close (x :: l)
  = f x ++ match l with
           | [] => close
           | _ :: _ => String "," (commaSep f close l)
           end.
Proof. reflexivity. Qed.

Lemma parseElements_read (items : list json) :
  Forall readsBack items -> forallb plainObjects items = true -> items <> [] ->
  forall fuel rest,
    (list_sum (map (fun v => S (need v)) items) <= fuel)%nat ->
    parseElements fuel (commaSep stringify "]" items ++ rest) = POk items rest.
Proof.
  induction 1 as [|v items Hv Hitems IH]; [congruence|].
  intros Hplain _ fuel rest Hfuel. simpl in Hfuel.
  cbn [forallb] in Hplain. apply andb_true_iff in Hplain as [Hpv Hpitems].
  destruct fuel as [|f]; [lia|].
  rewrite commaSep_cons, append_assoc. cbn [parseElements].
  destruct items as [|w items].
  - rewrite Hv by (assumption || reflexivity || lia). reflexivity.
  - rewrite Hv by (assumption || reflexivity || lia). rewrite append_cons.
    rewrite (skipWs_nonws ",") by reflexivity.
    change (Ascii.eqb "," ",") with true. cbv iota.
    rewrite IH by (assumption || congruence || lia). reflexivity.
Qed.

Lemma parseMembers_read (members : list (string * json)) :
  Forall (fun m => readsBack (snd m)) members ->
  forallb (fun m => negb (digitLed (fst m))) members = true ->
  forallb (fun m => plainObjects (snd m)) members = true ->
  members <> [] ->
  forall fuel rest,
    (list_sum (map (fun m => S (need (snd m))) members) <= fuel)%nat ->
    parseMembers fuel (commaSep printMember "}" members ++ rest) = POk members rest.
Proof.
  induction 1 as [|[k v] members Hv Hmembers IH]; [congruence|].
  intros Hkeys Hplain _ fuel rest Hfuel. simpl in Hfuel.
  cbn [forallb fst snd] in Hkeys, Hplain.
  apply andb_true_iff in Hkeys as [Hk Hkeys]. apply negb_true_iff in Hk.
  apply andb_true_iff in Hplain as [Hpv Hplain].
  destruct fuel as [|f]; [lia|].
  rewrite commaSep_cons. unfold printMember at 1. cbn [fst snd] in *.
  rewrite !append_assoc.
  destruct (QuoteJSONString_read k
    (String ":" (stringify v) ++
       match members with
       | [] => "}"
       | _ :: _ => String "," (commaSep printMember "}" members)
       end ++ rest)) as (body & Hbody & Hread).
  rewrite Hbody. cbn [parseMembers].
  rewrite (skipWs_nonws dquote) by reflexivity.
  change (Ascii.eqb dquote dquote) with true. cbv iota.
  rewrite Hread. rewrite append_cons.
  rewrite (skipWs_nonws ":") by reflexivity. rewrite Hk.
  change (Ascii.eqb ":" ":") with true. cbv iota.
  destruct members as [|w members].
  - rewrite Hv by (assumption || reflexivity || lia). reflexivity.
  - rewrite Hv by (assumption || reflexivity || lia). rewrite append_cons.
    rewrite (skipWs_nonws ",") by reflexivity.
    change (Ascii.eqb "," ",") with true. cbv iota.
    rewrite IH by (assumption || congruence || lia). reflexivity.
Qed.

Lemma commaSep_startsValue {A : Type} (f : A -> string) (close : string) (l : list A) :
  l <> [] -> (forall x, startsValue (f x) = true) ->
  startsValue (commaSep f close l) = true.
Proof.
  intros Hl Hf. destruct l as [|x l]; [congruence|].
  rewrite commaSep_cons. apply startsValue_append, Hf.
Qed.

Lemma parseValue_read (j : json) : readsBack j.
Proof.
  induction j as [ | b | n | s | items IH | members IH ] using json_nested_ind;
    intros Hplain fuel rest Hfuel Hrest;
    (destruct fuel as [|f]; [cbn [need] in Hfuel; lia|]).
  - reflexivity.
  - destruct b; reflexivity.
  - cbn [stringify].
    destruct (numberToString_head n) as (c & s & Hs & Hc).
    pose proof (parseNumber_read n rest Hrest) as Hp.
    rewrite Hs in *. rewrite append_cons in *.
    rewrite parseValue_number by assumption. now rewrite Hp.
  - cbn [stringify].
    destruct (QuoteJSONString_read s rest) as (body & Hbody & Hread).
    rewrite Hbody.
    change (parseValue (S f) (String dquote body))
      with (pmap JStr (parseStringBody Plain body)).
    now rewrite Hread.
  - cbn [stringify]. rewrite append_cons.
    destruct items as [|v items]; [reflexivity|].
    rewrite parseValue_array.
    + cbn [need] in Hfuel.
      rewrite parseElements_read; [reflexivity | assumption | exact Hplain | congruence | lia].
    + apply startsValue_append, commaSep_startsValue;
        [congruence | apply stringify_startsValue].
  - cbn [stringify]. rewrite append_cons.
    destruct members as [|m members]; [reflexivity|].
    rewrite parseValue_object.
    + cbn [need] in Hfuel. cbn [plainObjects] in Hplain.
      apply andb_true_iff in Hplain as [Hplain Hvalues].
      apply andb_true_iff in Hplain as [Hdistinct Hkeys].
      fold printMember.
      rewrite parseMembers_read;
        [| assumption | exact Hkeys | exact Hvalues | congruence | lia].
      cbn [pmap]. now rewrite foldMembers_distinct.
    + apply startsValue_append, commaSep_startsValue; [congruence|].
      intros x. reflexivity.
Qed.

Lemma append_empty_r (s : string) : s ++ "" = s.
Proof. induction s as [|c s IH]; str; [reflexivity | now rewrite IH]. Qed.

Lemma startsValue_length (s : string) :
  startsValue s = true -> (1 <= String.length s)%nat.
Proof. destruct s; [discriminate | simpl; lia]. Qed.

Lemma commaSep_length {A : Type} (f : A -> string) (g : A -> nat)
    (close : string) (l : list A) :
  (1 <= String.length close)%nat ->
  Forall (fun x => (g x <= String.length (f x))%nat) l ->
  (list_sum (map (fun x => S (g x)) l) <= String.length (commaSep f close l))%nat.
Proof.
  intros Hclose. induction 1 as [|x l Hx Hl IH]; [simpl; lia|].
  rewrite commaSep_cons, length_append. simpl list_sum.
  destruct l as [|y l]; [simpl; lia|].
  change (String.length (String "," ?s)) with (S (String.length s)).
  simpl in IH. simpl. lia.
Qed.

Lemma need_length (j : json) : (need j <= String.length (stringify j))%nat.
Proof.
  induction j as [ | b | n | s | items IH | members IH ] using json_nested_ind;
    try (apply startsValue_length, stringify_startsValue).
  - cbn [need stringify String.length]. apply le_n_S.
    apply (commaSep_length stringify need "]" items); [simpl; lia | exact IH].
  - cbn [need stringify String.length]. apply le_n_S.
    apply (commaSep_length _ (fun m => need (snd m)) "}" members); [simpl; lia|].
    eapply Forall_impl; [exact IH|]. intros [k v] Hkv. cbn [fst snd] in *.
    rewrite length_append. cbn [String.length]. lia.
Qed.

(** [JSON.parse (JSON.stringify j)] is [j], for every value whose
    objects have no name twice and none that starts with a digit. *)
Lemma parse_stringify (j : json) :
  plainObjects j = true -> parse (stringify j) = POk j "".
Proof.
  intros Hplain. unfold parse. rewrite <- (append_empty_r (stringify j)) at 2.
  rewrite parseValue_read; [reflexivity | assumption | | reflexivity].
  pose proof (need_length j). lia.
Qed.

(** The reader on a few texts: white space is skipped, a leading zero
    and a trailing comma are syntax errors, a fraction, [-0] and a
    name that starts with a digit are outside the fragment, and a name
    read twice keeps its first place with its last value. *)
Example parse_examples :
  parse " [1, -20 ,[ ], {} , true,null]"
  = POk (JArr [JNum 1; JNum (-20); JArr []; JObj []; JBool true; JNull]) ""
  /\ parse "[01]" = PErr SyntaxErr
  /\ parse "[1,]" = PErr SyntaxErr
  /\ parse "" = PErr SyntaxErr
  /\ parse "1.5" = PErr Unmodelled
  /\ parse "-0" = PErr Unmodelled
  /\ parse (stringify (JObj [("b", JNum 2); ("a", JNum 3); ("b", JNum 4)]))
     = POk (JObj [("b", JNum 4); ("a", JNum 3)]) ""
  /\ parse (stringify (JObj [("1", JNum 2)])) = PErr Unmodelled
  /\ stringify (JArr [JNum 0; JNum (-7); JArr []; JObj []; JBool false; JNull])
     = "[0,-7,[],{},false,null]".
Proof. repeat split. Qed.

End JSONProofs.

(** ** The store *)

Module StoreProofs.

Lemma asTask_taskToJson (t : Task) : asTask (taskToJson t) = Some t.
Proof. destruct t as [i ti d [] c]; reflexivity. Qed.

Lemma asTasks_tasksToJson (ts : list Task) : asTasks (tasksToJson ts) = Some ts.
Proof.
  unfold tasksToJson. cbn [asTasks].
  induction ts as [|t ts IH]; [reflexivity|].
  cbn [map asTaskList]. now rewrite asTask_taskToJson, IH.
Qed.

(** What [saveTasks] writes is never the empty string. *)
Lemma stringify_tasks_nonempty (ts : list Task) :
  String.eqb (stringify (tasksToJson ts)) "" = false.
Proof. reflexivity. Qed.

Lemma getItem_after_saveTasks (ts : list Task) (ls : gmap string string) :
  saveTasks ts ls !! storageKey = Some (stringify (tasksToJson ts)).
Proof. unfold saveTasks. apply lookup_insert_eq. Qed.

Lemma tasksToJson_plain (ts : list Task) :
  JSONFacts.plainObjects (tasksToJson ts) = true.
Proof.
  unfold tasksToJson. cbn [JSONFacts.plainObjects].
  induction ts as [|t ts IH]; [reflexivity|]. cbn [map forallb].
  now rewrite IH.
Qed.

Lemma parse_tasks (ts : list Task) :
  parse (stringify (tasksToJson ts)) = POk (tasksToJson ts) "".
Proof. apply JSONProofs.parse_stringify, tasksToJson_plain. Qed.

Lemma getTasks_saveTasks (ts : list Task) (ls : gmap string string) :
  getTasks true (saveTasks ts ls) = Normal (Tasks ts).
Proof.
  unfold getTasks. cbn [negb]. rewrite getItem_after_saveTasks.
  rewrite stringify_tasks_nonempty, parse_tasks.
  now rewrite asTasks_tasksToJson.
Qed.

Lemma getTasks_no_item (w : bool) (ls : gmap string string) :
  ls !! storageKey = None -> getTasks w ls = Normal (Tasks []).
Proof. intros H. unfold getTasks. rewrite H. now destruct w. Qed.

End StoreProofs.

(** ** The handlers *)

Module HandlerProofs.

Lemma eqb_id_absent (i : string) (ts : list Task) (t : Task) :
  i ∉ map id ts -> t ∈ ts -> String.eqb (id t) i = false.
Proof.
  intros Hi Ht. apply String.eqb_neq. intros <-.
  apply Hi, list_elem_of_fmap. eauto.
Qed.

(** A [map] that rewrites only the tasks of an absent id changes nothing. *)
Lemma map_absent (f : Task -> Task) (i : string) (ts : list Task) :
  i ∉ map id ts ->
  map (fun t => if String.eqb (id t) i then f t else t) ts = ts.
Proof.
  induction ts as [|t ts IH]; intros Hi; [reflexivity|].
  cbn [map]. rewrite (eqb_id_absent i (t :: ts) t Hi) by apply list_elem_of_here.
  f_equal. apply IH. intros Hin. apply Hi. cbn [map]. now apply list_elem_of_further.
Qed.

Lemma filter_absent (i : string) (ts : list Task) :
  i ∉ map id ts ->
  List.filter (fun t => negb (String.eqb (id t) i)) ts = ts.
Proof.
  induction ts as [|t ts IH]; intros Hi; [reflexivity|].
  cbn [List.filter]. rewrite (eqb_id_absent i (t :: ts) t Hi) by apply list_elem_of_here.
  cbn [negb]. f_equal. apply IH. intros Hin. apply Hi. cbn [map].
  now apply list_elem_of_further.
Qed.

Lemma setTasks_same (st : State) : setTasks (tasks st) st = st.
Proof. now destruct st. Qed.

Lemma tasks_setTasks (v : list Task) (st : State) : tasks (setTasks v st) = v.
Proof. reflexivity. Qed.

Lemma tasks_closeModal (st : State) : tasks (closeModal st) = tasks st.
Proof. reflexivity. Qed.

(** Reading the i-th element of a [map]. *)
Lemma lookup_map (f : Task -> Task) (ts : list Task) (i : nat) (x : Task) :
  ts !! i = Some x -> map f ts !! i = Some (f x).
Proof. intros H. change (map f ts) with (f <$> ts). now rewrite list_lookup_fmap, H. Qed.

End HandlerProofs.

(** ** [Array.prototype.sort] *)

Module SortProofs.

Section Sort.
Context {A : Type} (comparefn : A -> A -> option Z).

#[local] Abbreviation cmp := (SortCompare comparefn).
#[local] Abbreviation le := (fun a b => cmp a b <= 0).

Lemma sortInsert_perm (x : A) (l : list A) : sortInsert comparefn x l ≡ₚ x :: l.
Proof.
  induction l as [|y l IH]; cbn [sortInsert]; [reflexivity|].
  destruct (0 <? cmp x y); [|reflexivity].
  rewrite IH. apply Permutation_swap.
Qed.

Lemma Array_sort_perm (l : list A) : Array_sort comparefn l ≡ₚ l.
Proof.
  induction l as [|x l IH]; cbn [Array_sort]; [reflexivity|].
  now rewrite sortInsert_perm, IH.
Qed.

(** *** The output is ascending, on a domain where the comparator is
    consistent *)

Section Ascending.
Variable Q : A -> Prop.
Hypothesis cmp_antisym : forall a b, Q a -> Q b -> 0 < cmp a b -> cmp b a <= 0.
Hypothesis cmp_trans : forall a b c, Q a -> Q b -> Q c ->
  cmp a b <= 0 -> cmp b c <= 0 -> cmp a c <= 0.

Lemma sortInsert_sorted (x : A) (l : list A) :
  Q x -> Forall Q l -> StronglySorted le l ->
  StronglySorted le (sortInsert comparefn x l).
Proof.
  intros Hx Hl Hs. induction Hs as [|y l Hs IH Hy]; cbn [sortInsert].
  - repeat constructor.
  - apply Forall_cons in Hl as [HQy HQl].
    destruct (0 <? cmp x y) eqn:Hxy.
    + apply Z.ltb_lt in Hxy. constructor; [now apply IH|].
      rewrite sortInsert_perm. constructor; [now apply cmp_antisym | exact Hy].
    + apply Z.ltb_ge in Hxy. constructor; [now constructor|].
      constructor; [exact Hxy|].
      rewrite Forall_forall in Hy, HQl |- *. intros z Hz.
      apply (cmp_trans x y z); auto.
Qed.

Lemma Array_sort_sorted (l : list A) :
  Forall Q l -> StronglySorted le (Array_sort comparefn l).
Proof.
  induction 1 as [|x l Hx Hl IH]; cbn [Array_sort]; [constructor|].
  apply sortInsert_sorted; [assumption | now rewrite Array_sort_perm | assumption].
Qed.

End Ascending.

(** *** The sort is stable: a class of elements none of which the
    comparator puts strictly after another keeps its order *)

Section Stable.
Variable P : A -> bool.
Hypothesis cmp_class : forall x y, P x = true -> P y = true -> cmp x y <= 0.

Lemma sortInsert_filter (x : A) (l : list A) :
  List.filter P (sortInsert comparefn x l) = List.filter P (x :: l).
Proof.
  induction l as [|y l IH]; cbn [sortInsert]; [reflexivity|].
  destruct (0 <? cmp x y) eqn:Hxy; [|reflexivity].
  apply Z.ltb_lt in Hxy. cbn [List.filter] in *. rewrite IH.
  destruct (P x) eqn:HPx; [|reflexivity].
  destruct (P y) eqn:HPy; [|reflexivity].
  pose proof (cmp_class x y HPx HPy). lia.
Qed.

Lemma Array_sort_stable (l : list A) :
  List.filter P (Array_sort comparefn l) = List.filter P l.
Proof.
  induction l as [|x l IH]; cbn [Array_sort]; [reflexivity|].
  rewrite sortInsert_filter. cbn [List.filter]. now rewrite IH.
Qed.

End Stable.
End Sort.

(** *** The two comparators of [filteredTasks] *)

Section Comparators.
Context {R : Runtime}.

Lemma compare_date (a b : Task) (x y : Z) :
  Date_getTime (dueDate a) = Some x -> Date_getTime (dueDate b) = Some y ->
  SortCompare (compareTasks sort_date) a b = x - y.
Proof. intros Ha Hb. unfold SortCompare, compareTasks, numSub. now rewrite Ha, Hb. Qed.

Lemma compare_name (a b : Task) :
  SortCompare (compareTasks sort_name) a b = localeCompare (title a) (title b).
Proof. reflexivity. Qed.

Lemma date_sorted (l : list Task) :
  Forall validDate l ->
  StronglySorted (fun a b => SortCompare (compareTasks sort_date) a b <= 0)
    (Array_sort (compareTasks sort_date) l).
Proof.
  apply Array_sort_sorted.
  - intros a b [x Ha] [y Hb]. rewrite (compare_date a b x y), (compare_date b a y x) by assumption. lia.
  - intros a b c [x Ha] [y Hb] [z Hc].
    rewrite (compare_date a b x y), (compare_date b c y z), (compare_date a c x z)
      by assumption. lia.
Qed.

Lemma name_sorted `{!ConsistentCollation R} (l : list Task) :
  StronglySorted (fun a b => localeCompare (title a) (title b) <= 0)
    (Array_sort (compareTasks sort_name) l).
Proof.
  apply (Array_sort_sorted (compareTasks sort_name) (fun _ => True)).
  - intros a b _ _. rewrite !compare_name. intros H.
    apply localeCompare_antisym in H. lia.
  - intros a b c _ _ _. rewrite !compare_name. apply localeCompare_trans.
  - apply Forall_forall. auto.
Qed.

Lemma date_stable (k : option Z) (l : list Task) :
  List.filter (sameTime k) (Array_sort (compareTasks sort_date) l)
  = List.filter (sameTime k) l.
Proof.
  apply Array_sort_stable. intros x y Hx Hy.
  apply bool_decide_eq_true in Hx, Hy.
  unfold SortCompare, compareTasks, numSub. rewrite Hx, Hy.
  destruct k; lia.
Qed.

Lemma name_stable `{!ConsistentCollation R} (s : string) (l : list Task) :
  List.filter (sameName s) (Array_sort (compareTasks sort_name) l)
  = List.filter (sameName s) l.
Proof.
  apply Array_sort_stable. intros x y Hx Hy. rewrite compare_name.
  apply Z.eqb_eq in Hx, Hy.
  apply (localeCompare_trans _ s); [|lia].
  destruct (Z.lt_ge_cases 0 (localeCompare (title x) s)) as [Hlt|Hge]; [|lia].
  apply localeCompare_antisym in Hlt. lia.
Qed.

End Comparators.

(** *** Collation by code unit is consistent *)

Lemma codeUnitCompare_refl (a : string) : Latin1.codeUnitCompare a a = 0.
Proof.
  induction a as [|x a IH]; cbn [Latin1.codeUnitCompare]; [reflexivity|].
  now rewrite N.compare_refl.
Qed.

Lemma codeUnitCompare_antisym (a b : string) :
  Latin1.codeUnitCompare a b = - Latin1.codeUnitCompare b a.
Proof.
  revert b. induction a as [|x a IH]; intros [|y b]; cbn [Latin1.codeUnitCompare];
    try reflexivity.
  rewrite (N.compare_antisym (N_of_ascii x)).
  destruct (N_of_ascii x ?= N_of_ascii y)%N; cbn [CompOpp]; auto.
Qed.

Lemma codeUnitCompare_range (a b : string) :
  -1 <= Latin1.codeUnitCompare a b <= 1.
Proof.
  revert b. induction a as [|x a IH]; intros [|y b]; cbn [Latin1.codeUnitCompare];
    try lia.
  destruct (N_of_ascii x ?= N_of_ascii y)%N; [apply IH | lia | lia].
Qed.

Lemma codeUnitCompare_trans (a b c : string) :
  Latin1.codeUnitCompare a b <= 0 -> Latin1.codeUnitCompare b c <= 0 ->
  Latin1.codeUnitCompare a c <= 0.
Proof.
  revert b c. induction a as [|x a IH]; intros [|y b] [|z c];
    cbn [Latin1.codeUnitCompare]; try lia.
  destruct (N.compare_spec (N_of_ascii x) (N_of_ascii y)) as [Hxy|Hxy|Hxy];
    destruct (N.compare_spec (N_of_ascii y) (N_of_ascii z)) as [Hyz|Hyz|Hyz];
    destruct (N.compare_spec (N_of_ascii x) (N_of_ascii z)) as [Hxz|Hxz|Hxz];
    try lia.
  apply IH.
Qed.

#[export] Instance latin1_consistent : ConsistentCollation Latin1.runtime.
Proof.
  split; cbn [localeCompare Latin1.runtime].
  - apply codeUnitCompare_refl.
  - intros a b. rewrite (codeUnitCompare_antisym a b). lia.
  - apply codeUnitCompare_trans.
Qed.

End SortProofs.

(** ** The collection manager *)

Import StoreProofs HandlerProofs SortProofs.

(** *** Persistence after a mutation *)

(** C1, as stated, fails: deleting the only task empties the
    collection in memory, but the effect skips an empty collection, so
    the storage still holds the task and a reload brings it back. *)
Lemma deleting_last_task_is_not_saved :
  exists p1 p2,
    dispatch (SubmitForm "t2" 1735689600001 "Buy milk" "2025-01-05") emptyPage = Normal p1
    /\ dispatch (DeleteTask "t2") p1 = Normal p2
    /\ tasks (state p2) = []
    /\ getTasks true (localStorage p2)
       = Normal (Tasks [ {| id := "t2"; title := "Buy milk"; dueDate := "2025-01-05";
                            status := pending; createdAt := 1735689600001 |} ])
    /\ getTasks true (localStorage p2) <> Normal (Tasks (tasks (state p2))).
Proof.
  eexists _, _. repeat (split; [reflexivity|]). vm_compute. discriminate.
Qed.

(** C1, amended: every mutation completes; when it leaves the
    collection non-empty the effect calls [saveTasks] with the whole
    new collection, and loading then returns exactly that collection;
    when it leaves the collection empty the effect does not write and
    the storage stays as it was. *)
Theorem mutation_saves_nonempty_collection (m : Mutation) (p : Page) :
  exists p',
    dispatch m p = Normal p'
    /\ state p' = mutate m (state p)
    /\ (tasks (state p') <> [] ->
        localStorage p' = saveTasks (tasks (state p')) (localStorage p)
        /\ getTasks true (localStorage p') = Normal (Tasks (tasks (state p'))))
    /\ (tasks (state p') = [] -> localStorage p' = localStorage p).
Proof.
  eexists. split; [reflexivity|]. split; [reflexivity|].
  cbn [state localStorage]. unfold saveEffect.
  destruct (tasks (mutate m (state p))) as [|t ts] eqn:Hts; cbn [length Nat.ltb Nat.leb].
  - split; [congruence | reflexivity].
  - split; [|discriminate]. intros _. split; [reflexivity | apply getTasks_saveTasks].
Qed.

(** *** Validation *)

(** C2, as stated, fails: a title of one space is empty after
    trimming, and a due date the engine cannot parse is no date, yet
    the handler adds a task in both cases and raises nothing. *)
Lemma blank_title_is_accepted :
  emptyAfterTrim " " = true
  /\ Date_getTime (Runtime := Latin1.runtime) "someday" = None
  /\ dispatch (SubmitForm "u1" 1735689600005 " " "2025-01-01") emptyPage
     = Normal {| state := setTasks [ {| id := "u1"; title := " "; dueDate := "2025-01-01";
                                        status := pending; createdAt := 1735689600005 |} ]
                            initialState;
                 localStorage :=
                   saveTasks [ {| id := "u1"; title := " "; dueDate := "2025-01-01";
                                  status := pending; createdAt := 1735689600005 |} ] ∅ |}
  /\ tasks (handleSaveTask "u1" 1735689600005 " " "2025-01-01" initialState)
     <> tasks initialState
  /\ tasks (handleSaveTask "u2" 1735689600006 "Buy milk" "someday" initialState)
     = [ {| id := "u2"; title := "Buy milk"; dueDate := "someday";
            status := pending; createdAt := 1735689600006 |} ].
Proof. repeat split; try reflexivity. discriminate. Qed.

(** C2, amended: with no task under edit, submitting the form creates
    a task for every title and every due date, whatever they are: the
    call completes without an exception and the new pending task, with
    that title and due date as given, is put in front of the collection. *)
Theorem create_accepts_every_input (randomUUID : string) (now : Z)
    (title_ dueDate_ : string) (p : Page) :
  editingTask (state p) = None ->
  exists p',
    dispatch (SubmitForm randomUUID now title_ dueDate_) p = Normal p'
    /\ tasks (state p')
       = {| id := randomUUID; title := title_; dueDate := dueDate_;
            status := pending; createdAt := now |} :: tasks (state p).
Proof.
  intros He. eexists. split; [reflexivity|].
  cbn [state mutate]. unfold handleSaveTask. now rewrite He.
Qed.

Lemma create_accepts_every_input_witness :
  exists p',
    dispatch (SubmitForm "u1" 1735689600005 " " "") emptyPage = Normal p'
    /\ tasks (state p')
       = {| id := "u1"; title := " "; dueDate := "";
            status := pending; createdAt := 1735689600005 |} :: tasks (state emptyPage).
Proof. apply (create_accepts_every_input "u1" 1735689600005 " " "" emptyPage). reflexivity. Defined.

(** *** An id that is not in the collection *)

(** C3, as stated, fails: toggling or updating an id that no task has
    completes normally; no exception named NotFoundError is raised. *)
Lemma absent_id_raises_nothing :
  ("zz" ∉ map id (tasks (state (pageOf [buyMilk]))))
  /\ dispatch (ToggleStatus "zz") (pageOf [buyMilk]) = Normal (pageOf [buyMilk])
  /\ dispatch (ToggleStatus "zz") (pageOf [buyMilk]) <> Throw "NotFoundError"
  /\ dispatch (SubmitForm "u1" 1735689600005 "Ghost" "2025-02-02")
       (editing ghostTask (pageOf [buyMilk]))
     = Normal (pageOf [buyMilk])
  /\ dispatch (SubmitForm "u1" 1735689600005 "Ghost" "2025-02-02")
       (editing ghostTask (pageOf [buyMilk]))
     <> Throw "NotFoundError".
Proof.
  split; [compute_done|]. repeat split; try reflexivity; discriminate.
Qed.

(** C3, amended: for an id that no task of the collection has,
    [toggleStatus] and the update branch of [handleSaveTask] raise no
    exception of any name; they complete normally with the collection
    as it was. *)
Theorem absent_id_completes_normally (id_ : string) (p : Page) :
  id_ ∉ map id (tasks (state p)) ->
  (forall name, dispatch (ToggleStatus id_) p <> Throw name)
  /\ (exists p', dispatch (ToggleStatus id_) p = Normal p'
                 /\ tasks (state p') = tasks (state p))
  /\ (forall e randomUUID now title_ dueDate_,
        editingTask (state p) = Some e -> id e = id_ ->
        (forall name, dispatch (SubmitForm randomUUID now title_ dueDate_) p <> Throw name)
        /\ (exists p', dispatch (SubmitForm randomUUID now title_ dueDate_) p = Normal p'
                       /\ tasks (state p') = tasks (state p))).
Proof.
  intros Hid. split; [discriminate|]. split.
  - eexists. split; [reflexivity|]. cbn [state mutate]. unfold toggleStatus.
    rewrite tasks_setTasks. now apply map_absent.
  - intros e u n t d He <-. split; [discriminate|].
    eexists. split; [reflexivity|]. cbn [state mutate]. unfold handleSaveTask.
    rewrite He, tasks_closeModal, tasks_setTasks. now apply map_absent.
Qed.

Lemma absent_id_completes_normally_witness :
  let p := editing ghostTask (pageOf [buyMilk; writeReport]) in
  (forall name, dispatch (ToggleStatus "zz") p <> Throw name)
  /\ (exists p', dispatch (ToggleStatus "zz") p = Normal p'
                 /\ tasks (state p') = tasks (state p))
  /\ (forall e randomUUID now title_ dueDate_,
        editingTask (state p) = Some e -> id e = "zz" ->
        (forall name, dispatch (SubmitForm randomUUID now title_ dueDate_) p <> Throw name)
        /\ (exists p', dispatch (SubmitForm randomUUID now title_ dueDate_) p = Normal p'
                       /\ tasks (state p') = tasks (state p))).
Proof.
  apply (absent_id_completes_normally "zz"
           (editing ghostTask (pageOf [buyMilk; writeReport]))).
  compute_done.
Defined.

(** C10: for an id that no task of the collection has, [toggleStatus]
    returns the state it was given, and the update branch of
    [handleSaveTask] only closes the form; both calls complete
    normally and the collection is exactly the one before. *)
Theorem absent_id_is_silent_noop (id_ : string) (p : Page) :
  id_ ∉ map id (tasks (state p)) ->
  toggleStatus id_ (state p) = state p
  /\ dispatch (ToggleStatus id_) p
     = Normal {| state := state p;
                 localStorage := saveEffect (state p) (localStorage p) |}
  /\ (forall e randomUUID now title_ dueDate_,
        editingTask (state p) = Some e -> id e = id_ ->
        handleSaveTask randomUUID now title_ dueDate_ (state p) = closeModal (state p)
        /\ tasks (handleSaveTask randomUUID now title_ dueDate_ (state p)) = tasks (state p)
        /\ dispatch (SubmitForm randomUUID now title_ dueDate_) p
           = Normal {| state := closeModal (state p);
                       localStorage := saveEffect (state p) (localStorage p) |}).
Proof.
  intros Hid.
  assert (Htoggle : toggleStatus id_ (state p) = state p).
  { unfold toggleStatus. rewrite map_absent by assumption. apply setTasks_same. }
  split; [exact Htoggle|]. split.
  - unfold dispatch. cbn [mutate]. now rewrite Htoggle.
  - intros e u n t d He <-.
    assert (Hsave : handleSaveTask u n t d (state p) = closeModal (state p)).
    { unfold handleSaveTask. rewrite He, map_absent by assumption.
      now rewrite setTasks_same. }
    split; [exact Hsave|]. split; [now rewrite Hsave|].
    unfold dispatch. cbn [mutate]. now rewrite Hsave.
Qed.

Lemma absent_id_is_silent_noop_witness :
  let p := editing ghostTask (pageOf [buyMilk; writeReport]) in
  toggleStatus "zz" (state p) = state p
  /\ dispatch (ToggleStatus "zz") p
     = Normal {| state := state p;
                 localStorage := saveEffect (state p) (localStorage p) |}
  /\ (forall e randomUUID now title_ dueDate_,
        editingTask (state p) = Some e -> id e = "zz" ->
        handleSaveTask randomUUID now title_ dueDate_ (state p) = closeModal (state p)
        /\ tasks (handleSaveTask randomUUID now title_ dueDate_ (state p)) = tasks (state p)
        /\ dispatch (SubmitForm randomUUID now title_ dueDate_) p
           = Normal {| state := closeModal (state p);
                       localStorage := saveEffect (state p) (localStorage p) |}).
Proof.
  apply (absent_id_is_silent_noop "zz"
           (editing ghostTask (pageOf [buyMilk; writeReport]))).
  compute_done.
Defined.

(** *** Create *)




(** *** Update *)

(** C5: with the form open on a task [e], submitting it keeps the
    length and the order of the collection; a task at any position
    keeps its id, status and creation time; a task whose id is that of
    [e] gets the title and due date submitted, and every other task is
    left as it was. *)
Theorem update_changes_title_and_dueDate_only (e : Task) (randomUUID : string)
    (now : Z) (title_ dueDate_ : string) (st : State) :
  editingTask st = Some e ->
  let ts' := tasks (handleSaveTask randomUUID now title_ dueDate_ st) in
  length ts' = length (tasks st)
  /\ forall (i : nat) (t : Task),
       tasks st !! i = Some t ->
       exists t',
         ts' !! i = Some t'
         /\ id t' = id t /\ status t' = status t /\ createdAt t' = createdAt t
         /\ (id t = id e -> title t' = title_ /\ dueDate t' = dueDate_)
         /\ (id t <> id e -> t' = t).
Proof.
  intros He ts'. subst ts'. unfold handleSaveTask. rewrite He.
  rewrite tasks_closeModal, tasks_setTasks. split; [apply length_map|].
  intros i t Ht. eexists. split; [apply lookup_map, Ht|].
  destruct (String.eqb_spec (id t) (id e)) as [Heq|Hne]; cbn [id status createdAt title dueDate].
  - repeat split; congruence.
  - repeat split; congruence.
Qed.

Lemma update_changes_title_and_dueDate_only_witness :
  let st := state (editing buyMilk (pageOf [writeReport; buyMilk])) in
  let ts' := tasks (handleSaveTask "u9" 1735689600007 "Buy oat milk" "2025-01-06" st) in
  length ts' = length (tasks st)
  /\ forall (i : nat) (t : Task),
       tasks st !! i = Some t ->
       exists t',
         ts' !! i = Some t'
         /\ id t' = id t /\ status t' = status t /\ createdAt t' = createdAt t
         /\ (id t = id buyMilk -> title t' = "Buy oat milk" /\ dueDate t' = "2025-01-06")
         /\ (id t <> id buyMilk -> t' = t).
Proof.
  apply (update_changes_title_and_dueDate_only buyMilk "u9" 1735689600007
           "Buy oat milk" "2025-01-06"
           (state (editing buyMilk (pageOf [writeReport; buyMilk])))).
  reflexivity.
Defined.

(** *** Toggle *)

(** C6: toggling the same id twice gives back the state, hence every
    status, as it was; toggling once turns [pending] into [done] and
    [done] into [pending] on the tasks of that id, changes nothing else
    in them, and leaves the other tasks alone. *)
Theorem toggleStatus_twice_restores (id_ : string) (st : State) :
  toggleStatus id_ (toggleStatus id_ st) = st
  /\ forall (i : nat) (t : Task),
       tasks st !! i = Some t ->
       exists t',
         tasks (toggleStatus id_ st) !! i = Some t'
         /\ (id t = id_ ->
             status t' = flipped (status t) /\ status t' <> status t
             /\ id t' = id t /\ title t' = title t /\ dueDate t' = dueDate t
             /\ createdAt t' = createdAt t)
         /\ (id t <> id_ -> t' = t).
Proof.
  split.
  - destruct st as [ts s f b o e]. unfold toggleStatus, setTasks. cbn. f_equal.
    rewrite map_map. rewrite <- (map_id ts) at 2. apply map_ext.
    intros [i ti d [] c]; cbn; destruct (String.eqb_spec i id_) as [->|Hne]; cbn;
      try rewrite String.eqb_refl; try reflexivity;
      apply String.eqb_neq in Hne; now rewrite Hne.
  - intros i t Ht. unfold toggleStatus. rewrite tasks_setTasks.
    eexists. split; [apply lookup_map, Ht|].
    destruct (String.eqb_spec (id t) id_) as [Heq|Hne]; [|split; congruence].
    split; [|congruence]. intros _. destruct t as [i' ti d [] c]; cbn; repeat split; discriminate.
Qed.

(** *** Delete *)

(** C7: after [deleteTask] no task of the collection has the id,
    whatever the collection was; and when no task had it, the state is
    returned as it was, without an exception. *)
Theorem deleteTask_removes_id (id_ : string) (p : Page) :
  (id_ ∉ map id (tasks (deleteTask id_ (state p))))
  /\ Forall (fun t => id t <> id_) (tasks (deleteTask id_ (state p)))
  /\ (exists p', dispatch (DeleteTask id_) p = Normal p'
                 /\ state p' = deleteTask id_ (state p))
  /\ (id_ ∉ map id (tasks (state p)) -> deleteTask id_ (state p) = state p).
Proof.
  assert (Hall : Forall (fun t => id t <> id_) (tasks (deleteTask id_ (state p)))).
  { unfold deleteTask. rewrite tasks_setTasks. apply Forall_forall. intros t Ht.
    apply list_elem_of_In, filter_In in Ht as [_ Ht].
    apply negb_true_iff, String.eqb_neq in Ht. exact Ht. }
  split; [|split; [exact Hall|split]].
  - intros Hin. apply list_elem_of_fmap in Hin as (t & Hid & Ht).
    rewrite Forall_forall in Hall. now apply (Hall t Ht).
  - eexists. split; reflexivity.
  - intros Habs. unfold deleteTask. rewrite filter_absent by assumption.
    apply setTasks_same.
Qed.

(** *** Save and load *)

(** C9: loading after [saveTasks] returns the collection that was
    saved, task by task and field by field, whatever was stored before
    and also for the empty collection; and loading when nothing is
    stored under the key returns the empty collection, not an exception. *)
Theorem save_then_load_returns_collection (ts : list Task) (w : bool)
    (ls : gmap string string) :
  getTasks true (saveTasks ts ls) = Normal (Tasks ts)
  /\ getTasks w (delete storageKey ls) = Normal (Tasks [])
  /\ getTasks w ∅ = Normal (Tasks []).
Proof.
  split; [apply getTasks_saveTasks|]. split.
  - apply getTasks_no_item, lookup_delete_eq.
  - apply getTasks_no_item, lookup_empty.
Qed.

(** *** The visible list *)

Lemma StronglySorted_on {A : Type} (Q : A -> Prop) (R1 R2 : A -> A -> Prop) (l : list A) :
  (forall a b, Q a -> Q b -> R1 a b -> R2 a b) ->
  Forall Q l -> StronglySorted R1 l -> StronglySorted R2 l.
Proof.
  intros HR HQ Hs. induction Hs as [|x l Hs IH Hx]; [constructor|].
  apply Forall_cons in HQ as [HQx HQl]. constructor; [now apply IH|].
  rewrite Forall_forall in Hx, HQl |- *. intros y Hy. apply HR; auto.
Qed.

(** C8, as stated, fails on a collection in which a due date is not a
    date: its time value is [NaN], the comparator returns [NaN] against
    every other task, and the sort never brings the two dated tasks
    face to face. The task due on 10 January stays in front of the
    task due on 5 January (the order V8 gives as well, for which the
    array is one run already), so the list is not ascending even
    among the tasks whose due dates parse. *)
Lemma unparsable_dueDate_defeats_date_order :
  let R := Latin1.runtime in
  let ts := [writeReport; somedayTask; buyMilk] in
  Date_getTime (dueDate somedayTask) = None
  /\ keptTasks ts "" filter_all = ts
  /\ filteredTasks ts "" filter_all sort_date = [writeReport; somedayTask; buyMilk]
  /\ Date_getTime (dueDate writeReport) = Some 1736467200000
  /\ Date_getTime (dueDate buyMilk) = Some 1736035200000
  /\ ~ StronglySorted
        (fun a b => forall x y,
           Date_getTime (dueDate a) = Some x -> Date_getTime (dueDate b) = Some y ->
           x <= y)
        (filteredTasks ts "" filter_all sort_date).
Proof.
  repeat (split; [reflexivity|]).
  change (filteredTasks (R := Latin1.runtime) [writeReport; somedayTask; buyMilk]
            "" filter_all sort_date)
    with [writeReport; somedayTask; buyMilk].
  intros Hs. apply StronglySorted_inv in Hs as [_ Hhd].
  apply Forall_cons in Hhd as [_ Hhd]. apply Forall_cons in Hhd as [Hlate _].
  specialize (Hlate 1736467200000 1736035200000 eq_refl eq_refl). lia.
Qed.

(** C8, amended: the visible list holds exactly the tasks that pass
    the two filters. Sorted by date, and with every due date among
    those tasks a date the engine parses, it is ascending in the time
    value of the due date, earliest first; sorted by name it is
    ascending for [localeCompare] on the titles. In both cases the
    sort is stable: the tasks of one time value, respectively the
    tasks whose titles collate equal, come in the order they have in
    the collection. *)
Theorem filteredTasks_sorted_and_stable (R : Runtime) (C : ConsistentCollation R)
    (ts : list Task) (debouncedSearch : string) (f : TaskFilter) (by_ : TaskSort) :
  filteredTasks ts debouncedSearch f by_ ≡ₚ keptTasks ts debouncedSearch f
  /\ match by_ with
     | sort_date =>
         Forall validDate (keptTasks ts debouncedSearch f) ->
         StronglySorted
           (fun a b => exists x y,
              Date_getTime (dueDate a) = Some x /\ Date_getTime (dueDate b) = Some y
              /\ x <= y)
           (filteredTasks ts debouncedSearch f sort_date)
         /\ forall k : option Z,
              List.filter (sameTime k) (filteredTasks ts debouncedSearch f sort_date)
              = List.filter (sameTime k) (keptTasks ts debouncedSearch f)
     | sort_name =>
         StronglySorted
           (fun a b => localeCompare (title a) (title b) <= 0)
           (filteredTasks ts debouncedSearch f sort_name)
         /\ forall s : string,
              List.filter (sameName s) (filteredTasks ts debouncedSearch f sort_name)
              = List.filter (sameName s) (keptTasks ts debouncedSearch f)
     end.
Proof.
  unfold filteredTasks. fold (keptTasks ts debouncedSearch f).
  split; [apply Array_sort_perm|].
  destruct by_.
  - intros Hvalid. split; [|intros k; apply date_stable].
    apply (StronglySorted_on validDate
             (fun a b => SortCompare (compareTasks sort_date) a b <= 0)).
    + intros a b [x Ha] [y Hb] Hab. exists x, y.
      rewrite (compare_date a b x y) in Hab by assumption.
      repeat split; [assumption | assumption | lia].
    + now rewrite Array_sort_perm.
    + now apply date_sorted.
  - split; [apply name_sorted | intros s; apply name_stable].
Qed.

Lemma filteredTasks_sorted_and_stable_witness :
  let R := Latin1.runtime in
  let ts := [writeReport; buyMilk; alphaTask] in
  filteredTasks ts "" filter_all sort_date ≡ₚ keptTasks ts "" filter_all
  /\ StronglySorted
       (fun a b => exists x y,
          Date_getTime (dueDate a) = Some x /\ Date_getTime (dueDate b) = Some y
          /\ x <= y)
       (filteredTasks ts "" filter_all sort_date)
  /\ forall k : option Z,
       List.filter (sameTime k) (filteredTasks ts "" filter_all sort_date)
       = List.filter (sameTime k) (keptTasks ts "" filter_all).
Proof.
  destruct (filteredTasks_sorted_and_stable Latin1.runtime latin1_consistent
              [writeReport; buyMilk; alphaTask] "" filter_all sort_date)
    as (Hperm & Hsorted).
  split; [exact Hperm|].
  apply Hsorted.
  repeat (apply List.Forall_cons; [eexists; reflexivity|]). apply List.Forall_nil.
Defined.

(** The worked scenario: by date Alpha task comes last, by name first;
    the filter [done] keeps Buy milk alone; an empty search with the
    filter [all] keeps every task. *)
Example scenario_orders :
  let R := Latin1.runtime in
  map title (filteredTasks [writeReport; buyMilk; alphaTask] "" filter_all sort_date)
  = ["Buy milk"; "Write report"; "Alpha task"]
  /\ map title (filteredTasks [writeReport; buyMilk; alphaTask] "" filter_all sort_name)
     = ["Alpha task"; "Buy milk"; "Write report"]
  /\ map title (filteredTasks [writeReport; buyMilk] "" filter_done sort_date)
     = ["Buy milk"].
Proof. repeat split. Qed.

(** ** Further properties of the page *)

Module PageProofs.

(** *** The store *)

Lemma stringify_nonempty (j : json) : String.eqb (stringify j) "" = false.
Proof.
  pose proof (JSONProofs.stringify_startsValue j) as H.
  destruct (stringify j); [discriminate H | reflexivity].
Qed.

Lemma skipWs_allWs (s : string) : allWs s = true -> skipWs s = "".
Proof.
  induction s as [|c s IH]; [reflexivity|]. cbn [allWs skipWs].
  destruct (isWs c); [exact IH | discriminate].
Qed.

Lemma parse_allWs (s : string) : allWs s = true -> parse s = PErr SyntaxErr.
Proof.
  intros H. unfold parse.
  replace (2 * String.length s + 2)%nat with (S (2 * String.length s + 1)) by lia.
  cbn [parseValue]. now rewrite skipWs_allWs.
Qed.

(** *** Sessions *)

Lemma mount_ready (ls : gmap string string) (p : Page) :
  mount ls = Normal (Ready p) ->
  exists ts, getTasks true ls = Normal (Tasks ts)
             /\ p = {| state := setTasks ts initialState;
                       localStorage := saveEffect (setTasks ts initialState) ls |}.
Proof.
  unfold mount. destruct (getTasks true ls) as [[ts|j]|name|]; try discriminate.
  intros [= <-]. now exists ts.
Qed.

Lemma saveEffect_stored (st : State) (ls : gmap string string) :
  tasks st <> [] ->
  saveEffect st ls !! storageKey = Some (stringify (tasksToJson (tasks st))).
Proof.
  intros Hne. unfold saveEffect. destruct (tasks st) as [|t ts]; [congruence|].
  apply StoreProofs.getItem_after_saveTasks.
Qed.

(** An event that does not call [setTasks] leaves the collection alone. *)
Lemma handle_keeps_tasks (e : Event) (st : State) :
  callsSetTasks e = false -> tasks (handle e st) = tasks st.
Proof. destruct e; try discriminate; intros _; reflexivity. Qed.

(** On every page of a session, a non-empty collection is in the
    storage, in the text [saveTasks] writes for it. *)
Lemma reachable_stored (ls0 : gmap string string) (p : Page) :
  reachable ls0 p -> tasks (state p) <> [] ->
  localStorage p !! storageKey = Some (stringify (tasksToJson (tasks (state p)))).
Proof.
  induction 1 as [p Hm | e p Hp IH]; intros Hne.
  - apply mount_ready in Hm as (ts & _ & ->). cbn [state localStorage] in *.
    now apply saveEffect_stored.
  - unfold fire in *. cbn [state localStorage] in *.
    destruct (callsSetTasks e) eqn:He.
    + now apply saveEffect_stored.
    + rewrite handle_keeps_tasks in * by assumption. now apply IH.
Qed.

Lemma stored_loads (ts : list Task) (ls : gmap string string) :
  ls !! storageKey = Some (stringify (tasksToJson ts)) ->
  getTasks true ls = Normal (Tasks ts).
Proof.
  intros H. unfold getTasks. cbn [negb]. rewrite H.
  rewrite StoreProofs.stringify_tasks_nonempty, StoreProofs.parse_tasks.
  now rewrite StoreProofs.asTasks_tasksToJson.
Qed.

Lemma mount_empty : mount ∅ = Normal (Ready emptyPage).
Proof. reflexivity. Qed.

(** A mutation dispatched is the event of its control fired. *)
Lemma dispatch_fire (m : Mutation) (p : Page) :
  dispatch m p = Normal (fire (eventOf m) p).
Proof. now destruct m. Qed.

(** The modal is closed only with no task under edit. *)
Lemma reachable_modal (ls0 : gmap string string) (p : Page) :
  reachable ls0 p -> isModalOpen (state p) = false -> editingTask (state p) = None.
Proof.
  induction 1 as [p Hm | e p Hp IH].
  - apply mount_ready in Hm as (ts & _ & ->). reflexivity.
  - destruct e; cbn; try exact IH; try discriminate; reflexivity.
Qed.

(** *** The handlers on a collection with unique ids *)

Lemma toggled_spec (t : Task) :
  {| id := id t; title := title t; dueDate := dueDate t;
     status := if String.eqb (statusLiteral (status t)) "pending" then done else pending;
     createdAt := createdAt t |} = toggled t.
Proof. now destruct t as [i ti d [] c]. Qed.

Lemma tasks_toggleStatus (i : string) (st : State) :
  tasks (toggleStatus i st) = rewriteId toggled i (tasks st).
Proof.
  unfold toggleStatus, rewriteId. cbn [tasks setTasks]. apply map_ext.
  intros t. now rewrite toggled_spec.
Qed.

Lemma tasks_update (e : Task) (u : string) (n : Z) (t d : string) (st : State) :
  editingTask st = Some e ->
  tasks (handleSaveTask u n t d st) = rewriteId (retitled t d) (id e) (tasks st).
Proof. intros He. unfold handleSaveTask. now rewrite He. Qed.

Lemma tasks_create (u : string) (n : Z) (t d : string) (st : State) :
  editingTask st = None ->
  tasks (handleSaveTask u n t d st)
  = {| id := u; title := t; dueDate := d; status := pending; createdAt := n |} :: tasks st.
Proof. intros He. unfold handleSaveTask. now rewrite He. Qed.

Lemma tasks_deleteTask (i : string) (st : State) :
  tasks (deleteTask i st) = List.filter (fun t => negb (String.eqb (id t) i)) (tasks st).
Proof. reflexivity. Qed.


Lemma NoDup_filter_ids (P : Task -> bool) (ts : list Task) :
  NoDup (map id ts) -> NoDup (map id (List.filter P ts)).
Proof.
  induction ts as [|t ts IH]; [trivial|]. cbn [map List.filter].
  intros [Hnot Hnd]%NoDup_cons. destruct (P t); [|now apply IH].
  cbn [map]. apply NoDup_cons. split; [|now apply IH].
  intros Hin. apply Hnot.
  apply list_elem_of_fmap in Hin as (x & Hx & Hin). apply list_elem_of_fmap.
  exists x. split; [exact Hx|]. apply list_elem_of_In.
  apply list_elem_of_In, filter_In in Hin. tauto.
Qed.

(** With unique ids, the [map] over one id rewrites one position. *)
Lemma rewriteId_at (f : Task -> Task) (ts : list Task) (k : nat) (t : Task) :
  NoDup (map id ts) -> ts !! k = Some t ->
  rewriteId f (id t) ts = <[k := f t]> ts.
Proof.
  revert k. induction ts as [|x ts IH]; intros k Hnd Hk; [discriminate|].
  cbn [map] in Hnd. apply NoDup_cons in Hnd as [Hnot Hnd].
  unfold rewriteId in *. cbn [map]. destruct k as [|k]; cbn in Hk |- *.
  - injection Hk as ->. rewrite String.eqb_refl. f_equal.
    apply HandlerProofs.map_absent. exact Hnot.
  - assert (Hne : String.eqb (id x) (id t) = false).
    { apply String.eqb_neq. intros Heq. apply Hnot. rewrite Heq.
      apply list_elem_of_fmap. exists t. split; [reflexivity|].
      apply list_elem_of_lookup. eauto. }
    rewrite Hne. f_equal. now apply IH.
Qed.

(** With unique ids, the [filter] on one id drops one position. *)
Lemma filter_at (ts : list Task) (k : nat) (t : Task) :
  NoDup (map id ts) -> ts !! k = Some t ->
  List.filter (fun x => negb (String.eqb (id x) (id t))) ts = delete k ts.
Proof.
  revert k. induction ts as [|x ts IH]; intros k Hnd Hk; [discriminate|].
  cbn [map] in Hnd. apply NoDup_cons in Hnd as [Hnot Hnd].
  cbn [List.filter]. destruct k as [|k]; cbn in Hk |- *.
  - injection Hk as ->. rewrite String.eqb_refl. cbn [negb].
    now apply HandlerProofs.filter_absent.
  - assert (Hne : String.eqb (id x) (id t) = false).
    { apply String.eqb_neq. intros Heq. apply Hnot. rewrite Heq.
      apply list_elem_of_fmap. exists t. split; [reflexivity|].
      apply list_elem_of_lookup. eauto. }
    rewrite Hne. cbn [negb]. f_equal. now apply IH.
Qed.

Lemma id_determines_task (ts : list Task) (x y : Task) :
  NoDup (map id ts) -> x ∈ ts -> y ∈ ts -> id x = id y -> x = y.
Proof.
  induction ts as [|t ts IH]; intros Hnd Hx Hy Heq; [now apply elem_of_nil in Hx|].
  cbn [map] in Hnd. apply NoDup_cons in Hnd as [Hnot Hnd].
  apply elem_of_cons in Hx as [->|Hx]; apply elem_of_cons in Hy as [->|Hy].
  - reflexivity.
  - exfalso. apply Hnot. rewrite Heq. apply list_elem_of_fmap. eauto.
  - exfalso. apply Hnot. rewrite <- Heq. apply list_elem_of_fmap. eauto.
  - now apply IH.
Qed.

Lemma state_eq_tasks (v w : list Task) (st : State) :
  v = w -> setTasks v st = setTasks w st.
Proof. now intros ->. Qed.

Lemma setTasks_setTasks (v w : list Task) (st : State) :
  setTasks v (setTasks w st) = setTasks v st.
Proof. reflexivity. Qed.

Lemma map_fixed (g : Task -> Task) (ts : list Task) :
  (forall t, t ∈ ts -> g t = t) -> map g ts = ts.
Proof.
  induction ts as [|x ts IH]; intros Hg; [reflexivity|]. cbn [map].
  rewrite Hg by apply list_elem_of_here. f_equal. apply IH.
  intros t Ht. apply Hg. now apply list_elem_of_further.
Qed.

Lemma filter_filter_comm (P Q : Task -> bool) (ts : list Task) :
  List.filter P (List.filter Q ts) = List.filter Q (List.filter P ts).
Proof.
  induction ts as [|x ts IH]; [reflexivity|]. cbn [List.filter].
  destruct (P x) eqn:HP, (Q x) eqn:HQ; cbn [List.filter];
    rewrite ?HP, ?HQ, IH; reflexivity.
Qed.

Lemma filter_filter_same (P : Task -> bool) (ts : list Task) :
  List.filter P (List.filter P ts) = List.filter P ts.
Proof.
  induction ts as [|x ts IH]; [reflexivity|]. cbn [List.filter].
  destruct (P x) eqn:HP; cbn [List.filter]; rewrite ?HP, IH; reflexivity.
Qed.

Lemma filter_rewriteId (f : Task -> Task) (i j : string) (ts : list Task) :
  (forall t, id (f t) = id t) ->
  List.filter (fun t => negb (String.eqb (id t) j)) (rewriteId f i ts)
  = rewriteId f i (List.filter (fun t => negb (String.eqb (id t) j)) ts).
Proof.
  intros Hf. unfold rewriteId. induction ts as [|x ts IH]; [reflexivity|].
  cbn [map List.filter].
  assert (Hid : id (if String.eqb (id x) i then f x else x) = id x).
  { destruct (String.eqb (id x) i); [apply Hf | reflexivity]. }
  rewrite Hid. destruct (negb (String.eqb (id x) j)); cbn [map]; now rewrite IH.
Qed.

Lemma rewriteId_comm (f : Task -> Task) (i j : string) (ts : list Task) :
  (forall t, id (f t) = id t) ->
  rewriteId f i (rewriteId f j ts) = rewriteId f j (rewriteId f i ts).
Proof.
  intros Hf. unfold rewriteId. rewrite !map_map. apply map_ext. intros t.
  destruct (String.eqb (id t) i) eqn:Hi, (String.eqb (id t) j) eqn:Hj;
    rewrite ?Hf, ?Hi, ?Hj; reflexivity.
Qed.

(** *** The view *)

Lemma prefix_spec (a s : string) :
  String.prefix a s = true <-> exists post, s = a ++ post.
Proof.
  revert s. induction a as [|c a IH]; intros s.
  - split; [intros _; now exists s | intros _; now destruct s].
  - destruct s as [|d s]; cbn [String.prefix].
    + split; [discriminate | intros [post Hp]; discriminate Hp].
    + destruct (ascii_dec c d) as [->|Hne].
      * rewrite IH. split; intros [post Hp]; exists post.
        -- now rewrite Hp.
        -- rewrite JSONProofs.append_cons in Hp. now injection Hp.
      * split; [discriminate|]. intros [post Hp].
        rewrite JSONProofs.append_cons in Hp. injection Hp as Hc _. congruence.
Qed.

Lemma includes_unfold (s sub : string) :
  includes s sub
  = String.prefix sub s || match s with
                           | "" => false
                           | String _ s' => includes s' sub
                           end.
Proof. now destruct s. Qed.

(** [includes]: the second string occurs somewhere in the first. *)
Lemma includes_spec (s sub : string) :
  includes s sub = true <-> exists pre post, s = pre ++ sub ++ post.
Proof.
  split.
  - induction s as [|c s IH]; rewrite includes_unfold; intros H;
      apply orb_true_iff in H as [H|H]; try discriminate.
    + apply prefix_spec in H as [post Hp]. now exists "", post.
    + apply prefix_spec in H as [post Hp]. now exists "", post.
    + destruct (IH H) as (pre & post & Hs). exists (String c pre), post.
      now rewrite Hs.
  - intros (pre & post & Hs). revert s Hs.
    induction pre as [|c pre IH]; intros s Hs; rewrite includes_unfold.
    + apply orb_true_iff. left. apply prefix_spec. now exists post.
    + rewrite JSONProofs.append_cons in Hs. subst s.
      apply orb_true_iff. right. now apply IH.
Qed.

Lemma matchesFilter_spec (f : TaskFilter) (t : Task) :
  matchesFilter f t = true
  <-> f = filter_all \/ (f = filter_pending /\ status t = pending)
      \/ (f = filter_done /\ status t = done).
Proof.
  destruct f, (status t) eqn:Hs; unfold matchesFilter; rewrite Hs; cbn;
    intuition (discriminate || auto).
Qed.

Section ViewFacts.
Context {R : Runtime}.

Lemma elem_of_keptTasks (ts : list Task) (s : string) (f : TaskFilter) (t : Task) :
  t ∈ keptTasks ts s f
  <-> t ∈ ts /\ matchesSearch s t = true /\ matchesFilter f t = true.
Proof.
  unfold keptTasks. rewrite !list_elem_of_In, filter_In, andb_true_iff. tauto.
Qed.

Lemma filteredTasks_perm (ts : list Task) (s : string) (f : TaskFilter) (by_ : TaskSort) :
  filteredTasks ts s f by_ ≡ₚ keptTasks ts s f.
Proof. apply SortProofs.Array_sort_perm. Qed.

Lemma keptTasks_partition (ts : list Task) (s : string) :
  keptTasks ts s filter_all
  ≡ₚ keptTasks ts s filter_pending ++ keptTasks ts s filter_done.
Proof.
  unfold keptTasks. induction ts as [|t ts IH]; [reflexivity|].
  cbn [List.filter].
  assert (Hall : matchesFilter filter_all t = true) by reflexivity.
  assert (Hpd : matchesFilter filter_pending t = negb (matchesFilter filter_done t)).
  { unfold matchesFilter. now destruct (status t). }
  rewrite Hall, Hpd.
  destruct (matchesSearch s t); cbn [andb]; [|exact IH].
  destruct (matchesFilter filter_done t); cbn [negb].
  - rewrite IH. apply Permutation_middle.
  - cbn [app]. now rewrite IH.
Qed.

Lemma filter_all_elements (P : Task -> bool) (l : list Task) :
  Forall (fun t => P t = true) l -> List.filter P l = l.
Proof.
  induction 1 as [|t l Ht Hl IH]; [reflexivity|].
  cbn [List.filter]. now rewrite Ht, IH.
Qed.

End ViewFacts.

(** Sorting a list that is in order already returns it. *)
Lemma Array_sort_sorted_id {A : Type} (comparefn : A -> A -> option Z) (l : list A) :
  StronglySorted (fun a b => SortCompare comparefn a b <= 0) l ->
  Array_sort comparefn l = l.
Proof.
  induction 1 as [|x l Hs IH Hx]; [reflexivity|].
  cbn [Array_sort]. rewrite IH. destruct l as [|y l]; [reflexivity|].
  cbn [sortInsert]. apply Forall_cons in Hx as [Hxy _].
  apply Z.ltb_ge in Hxy. now rewrite Hxy.
Qed.

Lemma numberEnds_allWs (ws : string) : allWs ws = true -> JSONFacts.numberEnds ws = true.
Proof.
  destruct ws as [|c ws]; [reflexivity|]. cbn [allWs]. intros H.
  apply andb_true_iff in H as [Hc _]. revert Hc.
  destruct c as [[] [] [] [] [] [] [] []]; intros Hc; try discriminate Hc; reflexivity.
Qed.

Lemma parse_padded (j : json) (ws : string) :
  JSONFacts.plainObjects j = true ->
  allWs ws = true -> parse (stringify j ++ ws) = POk j "".
Proof.
  intros Hplain Hws. unfold parse.
  rewrite JSONProofs.parseValue_read; [|assumption| |now apply numberEnds_allWs].
  - now rewrite skipWs_allWs.
  - pose proof (JSONProofs.need_length j). rewrite JSONProofs.length_append. lia.
Qed.

End PageProofs.

Import PageProofs.

(** X1: [saveTasks] writes one slot of the storage: every other key
    reads as before, a second save replaces the first altogether, and
    loading then returns the collection saved last. *)
Theorem saveTasks_overwrites_its_slot (ts1 ts2 : list Task) (ls : gmap string string) :
  (forall k, k <> storageKey -> saveTasks ts1 ls !! k = ls !! k)
  /\ saveTasks ts2 (saveTasks ts1 ls) = saveTasks ts2 ls
  /\ getTasks true (saveTasks ts2 (saveTasks ts1 ls)) = Normal (Tasks ts2).
Proof.
  split; [|split].
  - intros k Hk. unfold saveTasks. now apply lookup_insert_ne.
  - unfold saveTasks. apply insert_insert_eq.
  - apply getTasks_saveTasks.
Qed.

(** X2: what [getTasks] does with nothing to parse. Outside a browser
    it returns the empty collection whatever the storage holds; an
    empty stored string is falsy and gives the empty collection; but a
    stored string of white space only is truthy, [JSON.parse] rejects
    it, and the call throws a SyntaxError. *)
Theorem getTasks_blank_storage (stored : string) (ls : gmap string string) :
  stored <> "" -> allWs stored = true ->
  getTasks false ls = Normal (Tasks [])
  /\ getTasks true (<[storageKey := ""]> ls) = Normal (Tasks [])
  /\ getTasks true (<[storageKey := stored]> ls) = Throw "SyntaxError".
Proof.
  intros Hne Hws. split; [reflexivity|]. split.
  - unfold getTasks. cbn [negb]. now rewrite lookup_insert_eq.
  - unfold getTasks. cbn [negb]. rewrite lookup_insert_eq.
    apply String.eqb_neq in Hne. now rewrite Hne, parse_allWs.
Qed.

Lemma getTasks_blank_storage_witness :
  getTasks false (saveTasks [buyMilk] ∅) = Normal (Tasks [])
  /\ getTasks true (<[storageKey := ""]> (saveTasks [buyMilk] ∅)) = Normal (Tasks [])
  /\ getTasks true (<[storageKey := "  "]> (saveTasks [buyMilk] ∅)) = Throw "SyntaxError".
Proof.
  apply (getTasks_blank_storage "  " (saveTasks [buyMilk] ∅)); [discriminate | reflexivity].
Defined.

(** X3: [getTasks] checks no shape. Take a JSON value whose numbers
    are integers a double holds exactly and whose objects have no name
    twice and none that starts with a digit, and which is no list of
    task records. When the storage holds its text, the call returns
    that very value under the type [Task[]], without an exception. *)
Theorem getTasks_returns_other_shapes (j : json) (ls : gmap string string) :
  JSONFacts.plainObjects j = true -> safeNumbers j = true ->
  asTasks j = None ->
  getTasks true (<[storageKey := stringify j]> ls) = Normal (Other j).
Proof.
  intros Hplain Hsafe Hj. unfold getTasks. cbn [negb].
  rewrite lookup_insert_eq, stringify_nonempty, JSONProofs.parse_stringify by assumption.
  now rewrite Hj, Hsafe.
Qed.

Lemma getTasks_returns_other_shapes_witness :
  getTasks true
    (<[storageKey := stringify (JArr [JObj [("title", JStr "Buy milk");
                                           ("done", JBool true);
                                           ("priority", JNum 2)]])]> ∅)
  = Normal (Other (JArr [JObj [("title", JStr "Buy milk");
                               ("done", JBool true);
                               ("priority", JNum 2)]])).
Proof.
  apply (getTasks_returns_other_shapes
           (JArr [JObj [("title", JStr "Buy milk"); ("done", JBool true);
                        ("priority", JNum 2)]]) ∅); reflexivity.
Defined.

(** X4: on every page a session reaches (a successful load followed by
    any events, whether they change the collection or only the view),
    a non-empty collection in memory is the one in the storage:
    loading at that moment returns exactly it. *)
Theorem session_keeps_storage_in_step (ls0 : gmap string string) (p : Page) :
  reachable ls0 p -> tasks (state p) <> [] ->
  getTasks true (localStorage p) = Normal (Tasks (tasks (state p))).
Proof. intros Hp Hne. now apply stored_loads, (reachable_stored ls0). Qed.

Lemma session_keeps_storage_in_step_witness :
  let p := fire (ChangeSearch "milk")
             (fire (Submit "t2" 1735689600001 "Buy milk" "2025-01-05")
                (fire ClickAddTask emptyPage)) in
  getTasks true (localStorage p) = Normal (Tasks (tasks (state p))).
Proof.
  apply (session_keeps_storage_in_step ∅
           (fire (ChangeSearch "milk")
              (fire (Submit "t2" 1735689600001 "Buy milk" "2025-01-05")
                 (fire ClickAddTask emptyPage)))).
  - do 3 apply reach_fire. apply reach_mount. reflexivity.
  - discriminate.
Defined.

(** X5: reloading the page of a session that holds a non-empty
    collection mounts without an exception, with the same collection in
    the same order, the view back at its initial values (no search,
    filter [all], sort by date, modal closed), and the storage exactly
    as it was. *)
Theorem reload_restores_collection (ls0 : gmap string string) (p : Page) :
  reachable ls0 p -> tasks (state p) <> [] ->
  mount (localStorage p)
  = Normal (Ready {| state := setTasks (tasks (state p)) initialState;
                     localStorage := localStorage p |}).
Proof.
  intros Hp Hne. pose proof (reachable_stored ls0 p Hp Hne) as Hstored.
  unfold mount. rewrite (stored_loads _ _ Hstored). do 3 f_equal.
  unfold saveEffect. cbn [tasks setTasks].
  destruct (tasks (state p)) as [|t ts]; [congruence|]. cbn [length Nat.ltb Nat.leb].
  unfold saveTasks. now apply insert_id.
Qed.

Lemma reload_restores_collection_witness :
  let p := fire (ClickToggle "t2")
             (fire (Submit "t2" 1735689600001 "Buy milk" "2025-01-05")
                (fire ClickAddTask emptyPage)) in
  mount (localStorage p)
  = Normal (Ready {| state := setTasks (tasks (state p)) initialState;
                     localStorage := localStorage p |}).
Proof.
  apply (reload_restores_collection ∅
           (fire (ClickToggle "t2")
              (fire (Submit "t2" 1735689600001 "Buy milk" "2025-01-05")
                 (fire ClickAddTask emptyPage)))).
  - do 3 apply reach_fire. apply reach_mount. reflexivity.
  - discriminate.
Defined.

(** X6: on every page of a session a closed modal has no task under
    edit, because [closeModal] and [handleSaveTask] reset it. So the
    form opened by Add Task from a closed modal always creates: its
    submission puts the new task in front and rewrites no task. *)
Theorem add_task_form_creates (ls0 : gmap string string) (p : Page)
    (randomUUID : string) (now : Z) (title_ dueDate_ : string) :
  reachable ls0 p -> isModalOpen (state p) = false ->
  editingTask (state p) = None
  /\ tasks (state (fire (Submit randomUUID now title_ dueDate_) (fire ClickAddTask p)))
     = {| id := randomUUID; title := title_; dueDate := dueDate_;
          status := pending; createdAt := now |} :: tasks (state p).
Proof.
  intros Hp Hclosed. pose proof (reachable_modal ls0 p Hp Hclosed) as He.
  split; [exact He|]. cbn. unfold handleSaveTask, openModal. cbn. now rewrite He.
Qed.

Lemma add_task_form_creates_witness :
  let p := fire ClickCancel (fire (ClickEdit buyMilk) (pageOf [buyMilk])) in
  editingTask (state p) = None
  /\ tasks (state (fire (Submit "t9" 1735689600008 "Water plants" "2025-03-01")
                     (fire ClickAddTask p)))
     = {| id := "t9"; title := "Water plants"; dueDate := "2025-03-01";
          status := pending; createdAt := 1735689600008 |} :: tasks (state p).
Proof.
  apply (add_task_form_creates (saveTasks [buyMilk] ∅)
           (fire ClickCancel (fire (ClickEdit buyMilk) (pageOf [buyMilk])))
           "t9" 1735689600008 "Water plants" "2025-03-01").
  - do 2 apply reach_fire. apply reach_mount. reflexivity.
  - reflexivity.
Defined.

(** *** Unique ids *)



(** X8: in a collection with unique ids, toggling or updating the
    task at position [k] replaces that one position and nothing else:
    the result is the collection with position [k] overwritten by the
    task with the other status, respectively with the new title and
    due date. *)
Theorem toggle_and_update_rewrite_one_position (st : State) (k : nat) (t : Task) :
  NoDup (map id (tasks st)) -> tasks st !! k = Some t ->
  tasks (toggleStatus (id t) st) = <[k := toggled t]> (tasks st)
  /\ forall e randomUUID now title_ dueDate_,
       editingTask st = Some e -> id e = id t ->
       tasks (handleSaveTask randomUUID now title_ dueDate_ st)
       = <[k := retitled title_ dueDate_ t]> (tasks st).
Proof.
  intros Hnd Hk. split.
  - rewrite tasks_toggleStatus. now apply rewriteId_at.
  - intros e u n ti d He Hid. rewrite (tasks_update e), Hid by assumption.
    now apply rewriteId_at.
Qed.

Lemma toggle_and_update_rewrite_one_position_witness :
  let st := state (editing buyMilk (pageOf [writeReport; buyMilk; alphaTask])) in
  tasks (toggleStatus (id buyMilk) st) = <[1%nat := toggled buyMilk]> (tasks st)
  /\ forall e randomUUID now title_ dueDate_,
       editingTask st = Some e -> id e = id buyMilk ->
       tasks (handleSaveTask randomUUID now title_ dueDate_ st)
       = <[1%nat := retitled title_ dueDate_ buyMilk]> (tasks st).
Proof.
  apply (toggle_and_update_rewrite_one_position
           (state (editing buyMilk (pageOf [writeReport; buyMilk; alphaTask])))
           1%nat buyMilk).
  - compute_done.
  - reflexivity.
Defined.

(** X9: in a collection with unique ids, deleting the task at position
    [k] removes that one position: the other tasks stay, in their
    order, and the collection is one shorter. *)
Theorem delete_removes_one_position (st : State) (k : nat) (t : Task) :
  NoDup (map id (tasks st)) -> tasks st !! k = Some t ->
  tasks (deleteTask (id t) st) = delete k (tasks st)
  /\ S (length (tasks (deleteTask (id t) st))) = length (tasks st).
Proof.
  intros Hnd Hk. rewrite tasks_deleteTask, (filter_at _ k) by assumption.
  split; [reflexivity|]. rewrite length_delete by eauto.
  apply lookup_lt_Some in Hk. lia.
Qed.

Lemma delete_removes_one_position_witness :
  let st := state (pageOf [writeReport; buyMilk; alphaTask]) in
  tasks (deleteTask (id buyMilk) st) = delete 1%nat (tasks st)
  /\ S (length (tasks (deleteTask (id buyMilk) st))) = length (tasks st).
Proof.
  apply (delete_removes_one_position
           (state (pageOf [writeReport; buyMilk; alphaTask])) 1%nat buyMilk).
  - compute_done.
  - reflexivity.
Defined.

(** *** How the handlers compose *)

(** X10: creating a task and then deleting its id gives back the
    collection as it was before the creation, when the identifier
    drawn for the new task is one no task of the collection has. *)
Theorem delete_undoes_create (randomUUID : string) (now : Z)
    (title_ dueDate_ : string) (st : State) :
  editingTask st = None -> randomUUID ∉ map id (tasks st) ->
  tasks (deleteTask randomUUID (handleSaveTask randomUUID now title_ dueDate_ st))
  = tasks st.
Proof.
  intros He Hfresh. rewrite tasks_deleteTask, tasks_create by assumption.
  cbn [List.filter id]. rewrite String.eqb_refl. cbn [negb].
  now apply HandlerProofs.filter_absent.
Qed.

Lemma delete_undoes_create_witness :
  tasks (deleteTask "t3"
           (handleSaveTask "t3" 1735689600002 "Alpha task" "2025-01-20"
              (state (pageOf [writeReport; buyMilk]))))
  = tasks (state (pageOf [writeReport; buyMilk])).
Proof.
  apply (delete_undoes_create "t3" 1735689600002 "Alpha task" "2025-01-20"
           (state (pageOf [writeReport; buyMilk]))).
  - reflexivity.
  - compute_done.
Defined.

(** X11: deleting the same id twice is deleting it once; deletions of
    two ids, toggles of two ids, and a toggle and a deletion can be
    done in either order with the same resulting state. *)
Theorem toggle_and_delete_commute (i j : string) (st : State) :
  deleteTask i (deleteTask i st) = deleteTask i st
  /\ deleteTask i (deleteTask j st) = deleteTask j (deleteTask i st)
  /\ toggleStatus i (toggleStatus j st) = toggleStatus j (toggleStatus i st)
  /\ toggleStatus i (deleteTask j st) = deleteTask j (toggleStatus i st).
Proof.
  assert (Htoggle : forall k s, toggleStatus k s = setTasks (rewriteId toggled k (tasks s)) s).
  { intros k s. rewrite <- tasks_toggleStatus. reflexivity. }
  repeat split.
  - unfold deleteTask. rewrite setTasks_setTasks. apply state_eq_tasks.
    cbn [tasks setTasks]. apply filter_filter_same.
  - unfold deleteTask. rewrite !setTasks_setTasks. apply state_eq_tasks.
    cbn [tasks setTasks]. apply filter_filter_comm.
  - rewrite !Htoggle, !setTasks_setTasks. apply state_eq_tasks.
    cbn [tasks setTasks]. now apply rewriteId_comm.
  - rewrite !Htoggle. unfold deleteTask. rewrite !setTasks_setTasks.
    apply state_eq_tasks. cbn [tasks setTasks]. symmetry. now apply filter_rewriteId.
Qed.

(** X12: the edit form comes up filled with the title and due date of
    the task under edit. Submitting it as it came up, while that task
    is still in a collection with unique ids, leaves the collection as
    it was. *)
Theorem unchanged_edit_is_noop (e : Task) (randomUUID : string) (now : Z) (st : State) :
  editingTask st = Some e -> e ∈ tasks st -> NoDup (map id (tasks st)) ->
  tasks (handleSaveTask randomUUID now (title e) (dueDate e) st) = tasks st.
Proof.
  intros He Hin Hnd. rewrite (tasks_update e) by assumption.
  unfold rewriteId. apply map_fixed. intros t Ht.
  destruct (String.eqb_spec (id t) (id e)) as [Heq|Hne]; [|reflexivity].
  rewrite (id_determines_task (tasks st) t e Hnd Ht Hin Heq). now destruct e.
Qed.

Lemma unchanged_edit_is_noop_witness :
  tasks (handleSaveTask "u9" 1735689600007 (title buyMilk) (dueDate buyMilk)
           (state (editing buyMilk (pageOf [writeReport; buyMilk]))))
  = tasks (state (editing buyMilk (pageOf [writeReport; buyMilk]))).
Proof.
  apply (unchanged_edit_is_noop buyMilk "u9" 1735689600007
           (state (editing buyMilk (pageOf [writeReport; buyMilk])))).
  - reflexivity.
  - change (buyMilk ∈ [writeReport; buyMilk]).
    apply list_elem_of_further, list_elem_of_here.
  - compute_done.
Defined.

(** *** The visible list *)

(** X13: which tasks are on screen. A task is in the visible list
    exactly when it is in the collection, its title in lower case
    contains the search text in lower case somewhere, and the filter
    is [all] or names the status of the task; the sort key has no say. *)
Theorem visible_iff (R : Runtime) (ts : list Task) (debouncedSearch : string)
    (f : TaskFilter) (by_ : TaskSort) (t : Task) :
  t ∈ filteredTasks ts debouncedSearch f by_
  <-> t ∈ ts
      /\ (exists pre post,
            toLowerCase (title t) = pre ++ toLowerCase debouncedSearch ++ post)
      /\ (f = filter_all \/ (f = filter_pending /\ status t = pending)
          \/ (f = filter_done /\ status t = done)).
Proof.
  rewrite filteredTasks_perm, elem_of_keptTasks.
  unfold matchesSearch. now rewrite includes_spec, matchesFilter_spec.
Qed.

(** X14: under one search text, the list shown with the filter [all]
    is made of the list shown with [pending] and the list shown with
    [done]: every task of the first is in exactly one of the two, as
    often as in the first. *)
Theorem status_views_partition (R : Runtime) (ts : list Task) (debouncedSearch : string)
    (by_ : TaskSort) :
  filteredTasks ts debouncedSearch filter_all by_
  ≡ₚ filteredTasks ts debouncedSearch filter_pending by_
     ++ filteredTasks ts debouncedSearch filter_done by_.
Proof. rewrite !filteredTasks_perm. apply keptTasks_partition. Qed.

(** X15: with an empty search text and the filter [all] nothing is
    filtered out: the visible list is the whole collection, reordered
    by the sort. It rests on the lower case of the empty string being
    the empty string. *)
Theorem empty_search_shows_all (R : Runtime) (ts : list Task) (by_ : TaskSort) :
  toLowerCase "" = "" ->
  keptTasks ts "" filter_all = ts
  /\ filteredTasks ts "" filter_all by_ ≡ₚ ts
  /\ length (filteredTasks ts "" filter_all by_) = length ts.
Proof.
  intros Hlow.
  assert (Hkept : keptTasks ts "" filter_all = ts).
  { unfold keptTasks. apply filter_all_elements, Forall_forall. intros t _.
    unfold matchesSearch. rewrite Hlow. apply andb_true_iff. split; [|reflexivity].
    apply includes_spec. now exists "", (toLowerCase (title t)). }
  split; [exact Hkept|].
  assert (Hperm : filteredTasks ts "" filter_all by_ ≡ₚ ts).
  { now rewrite filteredTasks_perm, Hkept. }
  split; [exact Hperm | now rewrite Hperm].
Qed.

Lemma empty_search_shows_all_witness :
  let R := Latin1.runtime in
  let ts := [writeReport; buyMilk; alphaTask] in
  keptTasks ts "" filter_all = ts
  /\ filteredTasks ts "" filter_all sort_name ≡ₚ ts
  /\ length (filteredTasks ts "" filter_all sort_name) = length ts.
Proof.
  apply (empty_search_shows_all Latin1.runtime [writeReport; buyMilk; alphaTask] sort_name).
  reflexivity.
Defined.

(** X16: each visible task is rendered under the key [task.id]. When
    the ids of the collection are unique, so are the keys of the
    visible list, whatever the search, the filter and the sort. *)
Theorem visible_keys_unique (R : Runtime) (ts : list Task) (debouncedSearch : string)
    (f : TaskFilter) (by_ : TaskSort) :
  NoDup (map id ts) -> NoDup (map id (filteredTasks ts debouncedSearch f by_)).
Proof.
  intros Hnd. change (map id ?l) with (id <$> l).
  rewrite filteredTasks_perm. now apply NoDup_filter_ids.
Qed.

Lemma visible_keys_unique_witness :
  NoDup (map id (filteredTasks (R := Latin1.runtime)
                   [writeReport; buyMilk; alphaTask] "a" filter_pending sort_name)).
Proof.
  apply (visible_keys_unique Latin1.runtime [writeReport; buyMilk; alphaTask]
           "a" filter_pending sort_name).
  compute_done.
Defined.

(** X17: the visible list is a fixed point of the view: filtering and
    sorting it again with the same search, filter and sort key returns
    it unchanged. For the date key this needs the due dates of the
    shown tasks to parse. *)
Theorem filteredTasks_idempotent (R : Runtime) (C : ConsistentCollation R)
    (ts : list Task) (debouncedSearch : string) (f : TaskFilter) (by_ : TaskSort) :
  (by_ = sort_date -> Forall validDate (keptTasks ts debouncedSearch f)) ->
  filteredTasks (filteredTasks ts debouncedSearch f by_) debouncedSearch f by_
  = filteredTasks ts debouncedSearch f by_.
Proof.
  intros Hvalid.
  assert (Hkept : keptTasks (filteredTasks ts debouncedSearch f by_) debouncedSearch f
                  = filteredTasks ts debouncedSearch f by_).
  { unfold keptTasks at 1. apply filter_all_elements, Forall_forall. intros t Ht.
    rewrite filteredTasks_perm in Ht. apply elem_of_keptTasks in Ht as (_ & Hs & Hf).
    now rewrite Hs, Hf. }
  unfold filteredTasks at 1. fold (keptTasks (filteredTasks ts debouncedSearch f by_)
                                     debouncedSearch f).
  rewrite Hkept. apply Array_sort_sorted_id. unfold filteredTasks.
  fold (keptTasks ts debouncedSearch f). destruct by_.
  - apply SortProofs.date_sorted. now apply Hvalid.
  - apply (SortProofs.name_sorted (keptTasks ts debouncedSearch f)).
Qed.

Lemma filteredTasks_idempotent_witness :
  let R := Latin1.runtime in
  filteredTasks (filteredTasks [writeReport; buyMilk; alphaTask] "" filter_all sort_date)
    "" filter_all sort_date
  = filteredTasks [writeReport; buyMilk; alphaTask] "" filter_all sort_date.
Proof.
  apply (filteredTasks_idempotent Latin1.runtime SortProofs.latin1_consistent
           [writeReport; buyMilk; alphaTask] "" filter_all sort_date).
  intros _.
  repeat (apply List.Forall_cons; [eexists; reflexivity|]). apply List.Forall_nil.
Defined.

(** X18: white space after the stored text does no harm: a storage
    whose text is what [saveTasks] writes followed by spaces, tabs or
    line breaks loads the same collection. *)
Theorem getTasks_ignores_trailing_space (ts : list Task) (ws : string)
    (ls : gmap string string) :
  allWs ws = true ->
  getTasks true (<[storageKey := stringify (tasksToJson ts) ++ ws]> ls)
  = Normal (Tasks ts).
Proof.
  intros Hws. unfold getTasks. cbn [negb]. rewrite lookup_insert_eq.
  rewrite parse_padded by (assumption || apply StoreProofs.tasksToJson_plain).
  rewrite StoreProofs.asTasks_tasksToJson.
  now destruct (stringify (tasksToJson ts) ++ ws) eqn:Hs.
Qed.

Lemma getTasks_ignores_trailing_space_witness :
  getTasks true
    (<[storageKey := stringify (tasksToJson [writeReport; buyMilk])
                     ++ String (ascii_of_nat 10) " "]> ∅)
  = Normal (Tasks [writeReport; buyMilk]).
Proof.
  apply (getTasks_ignores_trailing_space [writeReport; buyMilk]
           (String (ascii_of_nat 10) " ") ∅).
  reflexivity.
Defined.
